(** * MotionDetectionUnityAvatar: the camera probe and the launcher

    A shallow embedding of the two scripts of [mediapipeavatar/]:

    - [TEST.py], the camera probe: opens webcam 0 with OpenCV, shows the
      frames it reads until a read fails or the user presses [q], then
      releases the device and closes the windows;
    - [main.py], the launcher: starts the body-tracking thread, waits for
      one line of console input, raises the shutdown flag
      [global_vars.KILL_THREADS], sleeps half a second and exits.

    Each script is an interaction tree over the calls it makes to its
    surroundings (OpenCV, the console, the worker thread, the Python
    runtime).  The surroundings are a world that answers every call and
    keeps a log of the calls made.  A script may run forever (the probe
    does, on a camera that never fails and a keyboard that never sends
    [q]), so a run is observed for a number of steps. *)

From Stdlib Require Import ZArith List String Ascii Lia QArith Morphisms.
From ITree Require Import ITree ITreeFacts.
Import ListNotations ITreeNotations.
Local Open Scope itree_scope.
Local Open Scope string_scope.
Local Open Scope list_scope.
Local Open Scope Z_scope.

(** ** The Python runtime *)

Module Py.

(** The exceptions the two scripts can meet.  [exit()] (the builtin of
    [site] in TEST.py, [sys.exit] in main.py) raises [SystemExit] with the
    code it was given, [None] when called without argument; [input()]
    raises [EOFError] when standard input is exhausted. *)
Inductive exn : Type :=
| SystemExit (code : option Z)
| EOFError.

(** What the surroundings do with a call: answer it, or raise. *)
Inductive reply (T : Type) : Type :=
| Ok (a : T)
| Raise (x : exn).
Arguments Ok {T} a.
Arguments Raise {T} x.

(** What is known of a script after it was watched for some steps: it
    reached its last statement, it died of an exception nothing catches
    (neither script has a [try]), or it is still running. *)
Inductive outcome (R : Type) : Type :=
| Returned (r : R)
| Raised (x : exn)
| Running.
Arguments Returned {R} r.
Arguments Raised {R} x.
Arguments Running {R}.

(** The exit status the interpreter hands to the operating system: 0 at
    the end of the script and for [SystemExit(None)], the code itself for
    [SystemExit(n)], 1 for any other exception; none while running. *)
Definition exit_status {R} (o : outcome R) : option Z :=
  match o with
  | Returned _ => Some 0
  | Raised (SystemExit None) => Some 0
  | Raised (SystemExit (Some n)) => Some n
  | Raised EOFError => Some 1
  | Running => None
  end.

(** [ord(c)] for a one-character string. *)
Definition ord (c : ascii) : Z := Z.of_N (N_of_ascii c).

Section Runner.
Context {E : Type -> Type} {W : Type}.
Variable handle : forall T, E T -> W -> W * reply T.

(** [run_for n t w]: the world and the outcome after at most [n] steps
    of [t] started in [w].  A call and a jump back to a loop head cost
    one step each; reaching the end costs nothing. *)
Fixpoint run_for {R} (n : nat) (t : itree E R) (w : W) {struct n}
  : W * outcome R :=
  match observe t with
  | RetF r => (w, Returned r)
  | TauF t' =>
      match n with
      | O => (w, Running)
      | S n' => run_for n' t' w
      end
  | VisF e k =>
      match n with
      | O => (w, Running)
      | S n' =>
          match handle _ e w with
          | (w', Ok a) => run_for n' (k a) w'
          | (w', Raise x) => (w', Raised x)
          end
      end
  end.
End Runner.

(** [exit(code)] never comes back. *)
Definition never {E : Type -> Type} {R} (t : itree E Empty_set) : itree E R :=
  v <- t;; match v : Empty_set with end.

End Py.
Import Py.

(** ** TEST.py, the camera probe *)

Module Probe.

(** A frame is the pixel buffer [cap.read()] returns; the probe hands it
    to [imshow] and never looks inside. *)
Definition frame : Type := list Z.

(** The calls of TEST.py, with the type of what each returns.
    [read] answers [Some frame] for [(True, frame)] and [None] for
    [(False, None)]. *)
Variant cvE : Type -> Type :=
| VideoCapture (index : Z) : cvE unit
| isOpened : cvE bool
| read : cvE (option frame)
| imshow (winname : string) (mat : frame) : cvE unit
| waitKey (delay : Z) : cvE Z
| release : cvE unit
| destroyAllWindows : cvE unit
| print (s : string) : cvE unit
| exit (code : option Z) : cvE Empty_set.

(** A call as it is logged, with its answer. *)
Inductive call : Type :=
| c_VideoCapture (index : Z)
| c_isOpened (r : bool)
| c_read (r : option frame)
| c_imshow (winname : string) (mat : frame)
| c_waitKey (delay : Z) (r : Z)
| c_release
| c_destroyAllWindows
| c_print (s : string)
| c_exit (code : option Z).

(** What the probe cannot control: which device indices open, what the
    [i]-th read of the opened device returns, and what the [i]-th
    keyboard poll returns (-1 when no key was pressed). *)
Record env : Type := {
  camera : Z -> bool;
  feed : nat -> option frame;
  keyboard : nat -> Z
}.

(** The capture object [cap]. *)
Variant device : Type := NoDevice | Opened | Closed.

Record world : Type := {
  surroundings : env;
  cap : device;
  grabs : nat;           (* reads answered by the device so far *)
  polls : nat;           (* keyboard polls so far *)
  log : list call
}.

Definition boot (e : env) : world :=
  {| surroundings := e; cap := NoDevice; grabs := 0; polls := 0; log := [] |}.

Definition logged (c : call) (w : world) : world :=
  {| surroundings := surroundings w; cap := cap w; grabs := grabs w;
     polls := polls w; log := log w ++ [c] |}.

Definition with_cap (d : device) (w : world) : world :=
  {| surroundings := surroundings w; cap := d; grabs := grabs w;
     polls := polls w; log := log w |}.

Definition grabbed (w : world) : world :=
  {| surroundings := surroundings w; cap := cap w; grabs := S (grabs w);
     polls := polls w; log := log w |}.

Definition polled (w : world) : world :=
  {| surroundings := surroundings w; cap := cap w; grabs := grabs w;
     polls := S (polls w); log := log w |}.

Definition is_open (d : device) : bool :=
  match d with Opened => true | _ => false end.

(** OpenCV, the console and the runtime. A capture that is not open reads
    [(False, None)]. *)
Definition handle (T : Type) (e : cvE T) (w : world) : world * reply T :=
  match e in cvE T return world * reply T with
  | VideoCapture index =>
      let d := if camera (surroundings w) index then Opened else Closed in
      (logged (c_VideoCapture index) (with_cap d w), Ok tt)
  | isOpened =>
      (logged (c_isOpened (is_open (cap w))) w, Ok (is_open (cap w)))
  | read =>
      if is_open (cap w)
      then let r := feed (surroundings w) (grabs w) in
           (logged (c_read r) (grabbed w), Ok r)
      else (logged (c_read None) w, Ok None)
  | imshow winname mat => (logged (c_imshow winname mat) w, Ok tt)
  | waitKey delay =>
      let r := keyboard (surroundings w) (polls w) in
      (logged (c_waitKey delay r) (polled w), Ok r)
  | release => (logged c_release (with_cap Closed w), Ok tt)
  | destroyAllWindows => (logged c_destroyAllWindows w, Ok tt)
  | print s => (logged (c_print s) w, Ok tt)
  | exit code => (logged (c_exit code) w, Raise (SystemExit code))
  end.

Definition open_failure_message : string := "❌ Failed to open webcam".
Definition grab_failure_message : string := "❌ Failed to grab frame".

(** [cv2.waitKey(1) & 0xFF == ord('q')]: [&] binds tighter than [==]. *)
Definition quit (key : Z) : bool := Z.land key 0xFF =? ord "q".

(** One turn of [while True]: [inr tt] is [break], [inl tt] goes round
    again. *)
Definition turn (_ : unit) : itree cvE (unit + unit) :=
  ret <- ITree.trigger read;;
  match ret with
  | None =>
      ITree.trigger (print grab_failure_message);;
      Ret (inr tt)
  | Some frame =>
      ITree.trigger (imshow "Webcam" frame);;
      key <- ITree.trigger (waitKey 1);;
      if quit key then Ret (inr tt) else Ret (inl tt)
  end.

Definition while_True : itree cvE unit := ITree.iter turn tt.

Definition cleanup : itree cvE unit :=
  ITree.trigger release;;
  ITree.trigger destroyAllWindows.

(** The whole of TEST.py. *)
Definition probe : itree cvE unit :=
  ITree.trigger (VideoCapture 0);;
  opened <- ITree.trigger isOpened;;
  (if negb opened
   then ITree.trigger (print open_failure_message);;
        never (ITree.trigger (exit None))
   else Ret tt);;
  while_True;;
  cleanup.

Definition run (n : nat) (e : env) : world * outcome unit :=
  run_for handle n probe (boot e).

(** The script from the head of the loop on. *)
Definition from_loop : itree cvE unit := while_True;; cleanup.

(** *** Reading a log *)

(** What the camera yielded to the reads, in order. *)
Definition yielded (l : list call) : list (option frame) :=
  flat_map (fun c => match c with c_read r => [r] | _ => [] end) l.

(** The frames handed to [imshow], in order. *)
Definition shown (l : list call) : list frame :=
  flat_map (fun c => match c with c_imshow _ mat => [mat] | _ => [] end) l.

(** The frames among the answers of the reads. *)
Definition frames_of (rs : list (option frame)) : list frame :=
  flat_map (fun r => match r with Some f => [f] | None => [] end) rs.

Definition times (p : call -> bool) (l : list call) : nat :=
  List.length (filter p l).

Definition is_read (c : call) : bool :=
  match c with c_read _ => true | _ => false end.
Definition is_imshow (c : call) : bool :=
  match c with c_imshow _ _ => true | _ => false end.
Definition is_waitKey (c : call) : bool :=
  match c with c_waitKey _ _ => true | _ => false end.
Definition is_release (c : call) : bool :=
  match c with c_release => true | _ => false end.
Definition is_destroyAllWindows (c : call) : bool :=
  match c with c_destroyAllWindows => true | _ => false end.
Definition is_print (s : string) (c : call) : bool :=
  match c with c_print s' => String.eqb s s' | _ => false end.

(** The calls made on the capture object [cap]. *)
Definition on_cap (c : call) : bool :=
  match c with
  | c_isOpened _ | c_read _ | c_release => true
  | _ => false
  end.

(** A poll that saw the quit key. *)
Definition is_quit_poll (c : call) : bool :=
  match c with c_waitKey _ r => quit r | _ => false end.

(** A call whose answer makes the loop break: a read that failed, or a
    poll that saw the quit key. *)
Definition is_loop_exit (c : call) : bool :=
  match c with
  | c_read None => true
  | c_waitKey _ r => quit r
  | _ => false
  end.

(** What the two first statements log when the camera opens. *)
Definition opening : list call := [c_VideoCapture 0; c_isOpened true].

(** What one full turn of the loop logs. *)
Definition round (f : frame) (key : Z) : list call :=
  [c_read (Some f); c_imshow "Webcam" f; c_waitKey 1 key].

Definition closing : list call := [c_release; c_destroyAllWindows].

(** The logs of the loop and of the two statements after it, from the
    first read to the end of the script: turns that go round again, then
    a read that fails or a turn whose poll sees the quit key, then the
    release and the closing of the windows. *)
Inductive session : list call -> Prop :=
| session_read_failure :
    session (c_read None :: c_print grab_failure_message :: closing)
| session_quit f key :
    quit key = true -> session (round f key ++ closing)
| session_again f key l :
    quit key = false -> session l -> session (round f key ++ l).

(** How a log [l] of the loop and what follows it agrees with where the
    run stands: at the end it is a whole session, on the way it is the
    beginning of one, and nothing is ever raised. *)
Definition stands (o : outcome unit) (l : list call) : Prop :=
  match o with
  | Returned _ => session l
  | Running => exists more, more <> [] /\ session (l ++ more)
  | Raised _ => False
  end.

(** A machine without a camera. *)
Definition no_camera : env :=
  {| camera := fun _ => false;
     feed := fun _ => None;
     keyboard := fun _ => -1 |}.

(** A camera at index 0 that gives the frames [fs] and then fails, and a
    keyboard whose polls return [keys] and then -1. *)
Definition webcam (fs : list frame) (keys : list Z) : env :=
  {| camera := fun index => index =? 0;
     feed := fun i => nth i (List.map Some fs) None;
     keyboard := fun i => nth i keys (-1) |}.

(** What the script logs when the camera does not open. *)
Definition open_failure_log : list call :=
  [c_VideoCapture 0; c_isOpened false; c_print open_failure_message;
   c_exit None].

(** Any [print]. *)
Definition is_printing (c : call) : bool :=
  match c with c_print _ => true | _ => false end.

(** The logs of the runs that come to an end. *)
Definition full_log (l : list call) : Prop :=
  l = open_failure_log \/ exists s, session s /\ l = opening ++ s.

End Probe.

(** ** main.py, the launcher *)

Module Launcher.

(** The calls of main.py.  [BodyThread] is the constructor call
    [BodyThread()], [start] is [thread.start()], [set_KILL_THREADS v] is
    the assignment [global_vars.KILL_THREADS = v]. *)
Variant mainE : Type -> Type :=
| BodyThread : mainE unit
| start : mainE unit
| input : mainE string
| print (s : string) : mainE unit
| set_KILL_THREADS (value : bool) : mainE unit
| sleep (secs : Q) : mainE unit
| exit (code : option Z) : mainE Empty_set.

(** A call as it is logged; [c_input None] is an [input()] that met the
    end of standard input. *)
Inductive call : Type :=
| c_BodyThread
| c_start
| c_input (r : option string)
| c_print (s : string)
| c_set_KILL_THREADS (value : bool)
| c_sleep (secs : Q)
| c_exit (code : option Z).

(** The worker object [thread]. *)
Variant worker : Type := NoThread | Created | Started.

Record world : Type := {
  stdin : list string;        (* the lines not yet read *)
  KILL_THREADS : bool;        (* global_vars.KILL_THREADS *)
  thread : worker;
  log : list call
}.

(** Modelled from the spec: [global_vars.py] is not among the sources;
    the spec gives the shared shutdown flag as "a single process-wide
    boolean, default false". *)
Definition KILL_THREADS_default : bool := false.

Definition boot (lines : list string) : world :=
  {| stdin := lines; KILL_THREADS := KILL_THREADS_default;
     thread := NoThread; log := [] |}.

Definition logged (c : call) (w : world) : world :=
  {| stdin := stdin w; KILL_THREADS := KILL_THREADS w; thread := thread w;
     log := log w ++ [c] |}.

Definition with_thread (t : worker) (w : world) : world :=
  {| stdin := stdin w; KILL_THREADS := KILL_THREADS w; thread := t;
     log := log w |}.

Definition with_stdin (lines : list string) (w : world) : world :=
  {| stdin := lines; KILL_THREADS := KILL_THREADS w; thread := thread w;
     log := log w |}.

Definition with_KILL_THREADS (value : bool) (w : world) : world :=
  {| stdin := stdin w; KILL_THREADS := value; thread := thread w;
     log := log w |}.

(** The worker, the console and the runtime.

    Modelled from the spec: [body.py] is not among the sources.  The spec
    gives the worker as "a worker type exposing a start operation (begins
    processing asynchronously) and an implicit polling read of the shared
    flag": constructing and starting it return to the launcher and leave
    the flag as it is. *)
Definition handle (T : Type) (e : mainE T) (w : world) : world * reply T :=
  match e in mainE T return world * reply T with
  | BodyThread => (logged c_BodyThread (with_thread Created w), Ok tt)
  | start => (logged c_start (with_thread Started w), Ok tt)
  | input =>
      match stdin w with
      | line :: rest => (logged (c_input (Some line)) (with_stdin rest w), Ok line)
      | [] => (logged (c_input None) w, Raise EOFError)
      end
  | print s => (logged (c_print s) w, Ok tt)
  | set_KILL_THREADS value =>
      (logged (c_set_KILL_THREADS value) (with_KILL_THREADS value w), Ok tt)
  | sleep secs => (logged (c_sleep secs) w, Ok tt)
  | exit code => (logged (c_exit code) w, Raise (SystemExit code))
  end.

Definition exit_notice : string := "Exiting…".

(** The whole of main.py; the line read is bound to [i] and not used. *)
Definition launcher : itree mainE unit :=
  ITree.trigger BodyThread;;
  ITree.trigger start;;
  i <- ITree.trigger input;;
  ITree.trigger (print exit_notice);;
  ITree.trigger (set_KILL_THREADS true);;
  ITree.trigger (sleep (1 # 2));;
  never (ITree.trigger (exit None)).

Definition run (n : nat) (w : world) : world * outcome unit :=
  run_for handle n launcher w.

(** *** Reading a log *)

(** The values assigned to the flag, in order. *)
Definition writes (l : list call) : list bool :=
  flat_map (fun c => match c with c_set_KILL_THREADS v => [v] | _ => [] end) l.

(** The lines printed, in order. *)
Definition printed (l : list call) : list string :=
  flat_map (fun c => match c with c_print s => [s] | _ => [] end) l.

(** The log with the content of the lines read blanked out. *)
Definition blank (c : call) : call :=
  match c with
  | c_input (Some _) => c_input (Some "")
  | _ => c
  end.

(** What an onlooker sees of a run: what was printed, the calls made
    (not what was typed), the flag, and how the run stands. *)
Definition observable (r : world * outcome unit)
  : list string * list call * bool * outcome unit :=
  (printed (log (fst r)), List.map blank (log (fst r)), KILL_THREADS (fst r), snd r).

(** What a run that is given the line [line] logs, start to end. *)
Definition full_log (line : string) : list call :=
  [c_BodyThread; c_start; c_input (Some line); c_print exit_notice;
   c_set_KILL_THREADS true; c_sleep (1 # 2); c_exit None].

End Launcher.

(** * Facts *)

(** ** The runner *)

Section RunnerFacts.
Context {E : Type -> Type} {W : Type}.
Variable handle : forall T, E T -> W -> W * reply T.

(** Two trees that make the same calls and jumps run alike. *)
Lemma run_for_eq_itree {R} (n : nat) :
  forall (t1 t2 : itree E R) (w : W),
    t1 ≅ t2 -> run_for handle n t1 w = run_for handle n t2 w.
Proof.
  induction n as [|n IH]; intros t1 t2 w H; apply eqit_inv in H; cbn in *;
    unfold observe; destruct (_observe t1), (_observe t2); cbn in H;
    try contradiction; try discriminate; subst; auto;
    destruct H as [p [He Hk]]; destruct p; cbn in *; auto.
  subst. destruct (handle _ e0 w) as [w' [a|x]]; auto.
  apply IH, Hk.
Qed.

#[global] Instance run_for_Proper {R} (n : nat) :
  Proper (eq_itree eq ==> eq ==> eq) (@run_for E W handle R n).
Proof. intros t1 t2 H w ? <-. now apply run_for_eq_itree. Qed.

Lemma run_for_ret {R} (n : nat) (r : R) (w : W) :
  run_for handle n (Ret r) w = (w, Returned r).
Proof. destruct n; reflexivity. Qed.

Lemma run_for_tau {R} (n : nat) (t : itree E R) (w : W) :
  run_for handle (S n) (Tau t) w = run_for handle n t w.
Proof. reflexivity. Qed.

Lemma run_for_vis {R T} (n : nat) (e : E T) (k : T -> itree E R) (w : W) :
  run_for handle (S n) (Vis e k) w =
  match handle _ e w with
  | (w', Ok a) => run_for handle n (k a) w'
  | (w', Raise x) => (w', Raised x)
  end.
Proof. reflexivity. Qed.

(** A run that has come to its end stays as it is when watched longer. *)
Lemma run_for_more {R} (n : nat) :
  forall (t : itree E R) (w w' : W) (o : outcome R) (k : nat),
    run_for handle n t w = (w', o) -> o <> Running ->
    run_for handle (n + k) t w = (w', o).
Proof.
  induction n as [|n IH]; intros t w w' o k H Ho; cbn in *;
    destruct (observe t) as [r|t'|X e c] eqn:Hobs; auto;
    try (inversion H; subst; contradiction).
  - destruct k; cbn; rewrite Hobs; exact H.
  - destruct (handle _ e w) as [w1 [a|x]]; auto.
Qed.
End RunnerFacts.

(** ** The launcher *)

Module LauncherFacts.
Import Launcher.

(** Without a line to read, [input()] raises and the launcher dies with
    the flag as it was and nothing printed. *)
Lemma launcher_without_input (k : nat) :
  run (3 + k) (boot []) =
  ({| stdin := []; KILL_THREADS := false; thread := Started;
      log := [c_BodyThread; c_start; c_input None] |}, Raised EOFError).
Proof. reflexivity. Qed.

(** The log of a run that is given a line grows one call a step, in the
    order of [full_log]. *)
Lemma log_after (n : nat) (line : string) (rest : list string)
      (flag : bool) (t : worker) (l : list call) :
  log (fst (run n {| stdin := line :: rest; KILL_THREADS := flag;
                     thread := t; log := l |}))
  = l ++ firstn n (full_log line).
Proof.
  do 7 (destruct n as [|n]; [cbn; rewrite ?app_nil_r, <- ?app_assoc; reflexivity|]).
  cbn. rewrite firstn_nil, <- !app_assoc. reflexivity.
Qed.

(** The flag of a run that is given a line is raised by the fifth step. *)
Lemma flag_after (n : nat) (line : string) (rest : list string) :
  KILL_THREADS (fst (run n (boot (line :: rest)))) = (5 <=? n)%nat.
Proof. do 7 (destruct n as [|n]; [reflexivity|]). reflexivity. Qed.

Lemma flag_without_input (n : nat) :
  KILL_THREADS (fst (run n (boot []))) = false.
Proof. do 3 (destruct n as [|n]; [reflexivity|]). reflexivity. Qed.

Lemma writes_without_input (n : nat) :
  writes (log (fst (run n (boot [])))) = [].
Proof. do 3 (destruct n as [|n]; [reflexivity|]). reflexivity. Qed.

Lemma writes_after (n : nat) (line : string) (rest : list string) :
  writes (log (fst (run n (boot (line :: rest)))))
  = if (5 <=? n)%nat then [true] else [].
Proof. do 7 (destruct n as [|n]; [reflexivity|]). reflexivity. Qed.

(** C1: the shutdown flag starts false; once a run of the launcher has
    it true, every later state of that run has it true; the launcher
    never assigns false and assigns at most once; and when there is a
    line to read, the flag is false through the first four steps (the
    third consumes the line) and true from the fifth on, the assignment
    being the one write of the run. *)
Theorem KILL_THREADS_raised_once_never_lowered (lines : list string) :
  let flag n := KILL_THREADS (fst (run n (boot lines))) in
  let written n := writes (log (fst (run n (boot lines)))) in
  flag 0%nat = false
  /\ (forall n m, (n <= m)%nat -> flag n = true -> flag m = true)
  /\ (forall n, written n = [] /\ flag n = false
                \/ written n = [true] /\ flag n = true)
  /\ (forall line rest, lines = line :: rest ->
        forall n, flag n = (5 <=? n)%nat
                  /\ written n = (if (5 <=? n)%nat then [true] else [])
                  /\ log (fst (run n (boot lines)))
                     = firstn n [c_BodyThread; c_start; c_input (Some line);
                                 c_print exit_notice; c_set_KILL_THREADS true;
                                 c_sleep (1 # 2); c_exit None]).
Proof.
  cbv zeta. destruct lines as [|line rest].
  - split; [reflexivity|]. split; [|split].
    + intros n m _ H. rewrite flag_without_input in H. discriminate.
    + intros n. left. now rewrite writes_without_input, flag_without_input.
    + intros line rest H. discriminate.
  - split; [reflexivity|]. split; [|split].
    + intros n m Hnm. rewrite !flag_after. intros H.
      apply Nat.leb_le in H. apply Nat.leb_le. lia.
    + intros n. rewrite writes_after, flag_after.
      destruct (5 <=? n)%nat; auto.
    + intros line' rest' H n. inversion H; subst.
      rewrite flag_after, writes_after.
      split; [reflexivity|]. split; [reflexivity|].
      unfold boot. now rewrite log_after.
Qed.

Lemma KILL_THREADS_raised_once_never_lowered_witness :
  KILL_THREADS (fst (run 5 (boot [""]))) = true
  /\ KILL_THREADS (fst (run 9 (boot [""]))) = true
  /\ KILL_THREADS (fst (run 4 (boot [""]))) = (5 <=? 4)%nat.
Proof.
  split; [reflexivity|]. split.
  - apply (proj1 (proj2 (KILL_THREADS_raised_once_never_lowered [""])) 5%nat 9%nat).
    + repeat constructor.
    + reflexivity.
  - apply (proj2 (proj2 (proj2 (KILL_THREADS_raised_once_never_lowered [""])))
             "" [] eq_refl 4%nat).
Defined.

(** C6, as amended: whatever the flag, the worker and the log are when
    the launcher starts, a run that is given a line of console input
    makes its calls one a step in this order: construct the worker, start
    it, read the line, print the exit notice, set the flag to true, sleep
    0.5, exit; after the seventh step the run has ended in [SystemExit],
    and the last three calls are the assignment, the sleep and the
    exit. *)
Theorem launcher_effects_in_order
        (line : string) (rest : list string)
        (flag : bool) (t : worker) (l : list call) :
  let w := {| stdin := line :: rest; KILL_THREADS := flag;
              thread := t; log := l |} in
  (forall n,
      log (fst (run n w))
      = l ++ firstn n [c_BodyThread; c_start; c_input (Some line);
                       c_print exit_notice; c_set_KILL_THREADS true;
                       c_sleep (1 # 2); c_exit None])
  /\ (forall k,
      run (7 + k) w
      = ({| stdin := rest; KILL_THREADS := true; thread := Started;
            log := l ++ [c_BodyThread; c_start; c_input (Some line);
                         c_print exit_notice; c_set_KILL_THREADS true;
                         c_sleep (1 # 2); c_exit None] |},
         Raised (SystemExit None)))
  /\ (forall k, exists before,
      log (fst (run (7 + k) w))
      = before ++ [c_set_KILL_THREADS true; c_sleep (1 # 2); c_exit None]).
Proof.
  cbv zeta. split; [|split].
  - intros n. apply log_after.
  - intros k. cbn. unfold logged, with_KILL_THREADS, with_stdin, with_thread.
    cbn. now rewrite <- !app_assoc.
  - intros k.
    exists (l ++ [c_BodyThread; c_start; c_input (Some line); c_print exit_notice]).
    rewrite log_after. cbn. now rewrite firstn_nil, <- app_assoc.
Qed.

(** C6, as stated, fails on the run whose standard input is at its end:
    from the third step on that run has ended in [EOFError] with the
    construction, the start and the failed [input()] as its only calls;
    at no step has it slept or assigned the flag; so it is not true that
    every run makes the seven calls of the order. *)
Lemma effects_in_order_fails_at_end_of_input :
  (forall k,
      snd (run (3 + k) (boot [])) = Raised EOFError
      /\ log (fst (run (3 + k) (boot [])))
         = [c_BodyThread; c_start; c_input None])
  /\ ~ (exists n, In (c_sleep (1 # 2)) (log (fst (run n (boot [])))))
  /\ ~ (exists n, In (c_set_KILL_THREADS true) (log (fst (run n (boot [])))))
  /\ ~ (forall lines, exists n line,
           log (fst (run n (boot lines)))
           = [c_BodyThread; c_start; c_input (Some line); c_print exit_notice;
              c_set_KILL_THREADS true; c_sleep (1 # 2); c_exit None]).
Proof.
  split; [|split; [|split]].
  - intros k. now rewrite launcher_without_input.
  - intros (n & Hin).
    do 3 (destruct n as [|n]; [cbn in Hin; intuition discriminate|]).
    cbn in Hin. intuition discriminate.
  - intros (n & Hin).
    do 3 (destruct n as [|n]; [cbn in Hin; intuition discriminate|]).
    cbn in Hin. intuition discriminate.
  - intros H. destruct (H []) as (n & line & Hlog).
    do 3 (destruct n as [|n]; [discriminate Hlog|]).
    discriminate Hlog.
Qed.

(** C7: one line of input, whatever it holds and whether or not more
    follow, takes the launcher to its end: after seven steps the run has
    ended in [SystemExit], the exit notice is what was printed, the flag
    is true, the sleep was made, and that one line is all that was read. *)
Theorem one_line_completes_launcher
        (line : string) (rest : list string) (k : nat) :
  let r := run (7 + k) (boot (line :: rest)) in
  snd r = Raised (SystemExit None)
  /\ printed (log (fst r)) = [exit_notice]
  /\ KILL_THREADS (fst r) = true
  /\ In (c_sleep (1 # 2)) (log (fst r))
  /\ stdin (fst r) = rest.
Proof. cbn. intuition. Qed.

(** C8: two runs of the launcher that are given different lines cannot be
    told apart, at any step, by what they print, by the calls they make,
    by the flag or by how they stand. *)
Theorem launcher_ignores_line_content
        (line1 line2 : string) (rest1 rest2 : list string) (n : nat) :
  observable (run n (boot (line1 :: rest1)))
  = observable (run n (boot (line2 :: rest2))).
Proof. do 7 (destruct n as [|n]; [reflexivity|]). reflexivity. Qed.

(** ** More on the launcher *)

(** X4: when standard input is at its end, whatever the flag, the worker
    and the log were, the launcher constructs and starts the worker and
    dies at [input()] with [EOFError]: the worker is left started, the
    flag is left as it was, and nothing is printed, assigned or slept. *)
Theorem launcher_at_end_of_input
        (flag : bool) (t : worker) (l : list call) (k : nat) :
  let r := run (3 + k) {| stdin := []; KILL_THREADS := flag;
                          thread := t; log := l |} in
  r = ({| stdin := []; KILL_THREADS := flag; thread := Started;
          log := l ++ [c_BodyThread; c_start; c_input None] |},
       Raised EOFError)
  /\ printed (log (fst r)) = printed l
  /\ writes (log (fst r)) = writes l
  /\ exit_status (snd r) = Some 1.
Proof.
  cbv zeta. cbn. unfold logged, with_thread. cbn.
  rewrite <- !app_assoc. cbn.
  unfold printed, writes. rewrite !flat_map_app. cbn.
  now rewrite !app_nil_r.
Qed.

End LauncherFacts.

(** ** The probe *)

Module ProbeFacts.
Import Probe.

(** The quit test looks at the low byte of what the poll returned: [q]
    quits, with or without higher bits set; no key (-1) and [Q] do not. *)
Example quit_examples :
  quit (ord "q") = true /\ quit (ord "q" + 256) = true
  /\ quit (-1) = false /\ quit (ord "Q") = false.
Proof. repeat split. Qed.

(** *** The script, call by call *)

Lemma cleanup_unfold :
  cleanup ≅ Vis release (fun _ => Vis destroyAllWindows (fun _ => Ret tt)).
Proof.
  unfold cleanup. rewrite bind_trigger.
  apply eqit_Vis. intros []. unfold ITree.trigger.
  apply eqit_Vis. intros []. reflexivity.
Qed.

Lemma from_loop_unfold :
  from_loop
  ≅ Vis read (fun ret =>
      match ret with
      | None => Vis (print grab_failure_message) (fun _ => cleanup)
      | Some frame =>
          Vis (imshow "Webcam" frame) (fun _ =>
          Vis (waitKey 1) (fun key =>
          if quit key then cleanup else Tau from_loop))
      end).
Proof.
  unfold from_loop at 1, while_True. rewrite unfold_iter.
  unfold turn at 1. rewrite !bind_bind, bind_trigger.
  apply eqit_Vis. intros [frame|].
  - rewrite !bind_bind, bind_trigger. apply eqit_Vis. intros [].
    rewrite !bind_bind, bind_trigger. apply eqit_Vis. intros key.
    destruct (quit key); rewrite !bind_ret_l.
    + reflexivity.
    + rewrite bind_tau. reflexivity.
  - rewrite !bind_bind, bind_trigger. apply eqit_Vis. intros [].
    rewrite !bind_ret_l. reflexivity.
Qed.

Lemma probe_unfold :
  probe
  ≅ Vis (VideoCapture 0) (fun _ =>
    Vis isOpened (fun opened : bool =>
    if opened
    then from_loop
    else Vis (print open_failure_message) (fun _ =>
         Vis (exit None)
             (fun v => match v : Empty_set return itree cvE unit with end)))).
Proof.
  unfold probe. rewrite bind_trigger. apply eqit_Vis. intros [].
  rewrite bind_trigger. apply eqit_Vis. intros [|]; cbn.
  - rewrite bind_ret_l. reflexivity.
  - unfold never. rewrite !bind_bind, bind_trigger. apply eqit_Vis. intros [].
    rewrite !bind_bind, bind_trigger. apply eqit_Vis. intros [].
Qed.

(** *** The runs, step by step *)

Lemma run_cleanup (n : nat) (w : world) :
  run_for handle n cleanup w =
  match n with
  | 0%nat => (w, Running)
  | 1%nat => (logged c_release (with_cap Closed w), Running)
  | _ => (logged c_destroyAllWindows (logged c_release (with_cap Closed w)),
          Returned tt)
  end.
Proof.
  rewrite cleanup_unfold. destruct n as [|[|n]]; [reflexivity|reflexivity|].
  rewrite !run_for_vis. cbn [handle]. apply run_for_ret.
Qed.

(** One turn of the loop on an open capture. *)
Lemma run_from_loop (n : nat) (w : world) :
  is_open (cap w) = true ->
  run_for handle n from_loop w =
  match n with
  | 0%nat => (w, Running)
  | S n1 =>
      let r := feed (surroundings w) (grabs w) in
      let w1 := logged (c_read r) (grabbed w) in
      match r, n1 with
      | _, 0%nat => (w1, Running)
      | None, S n2 =>
          run_for handle n2 cleanup (logged (c_print grab_failure_message) w1)
      | Some f, S n2 =>
          let w2 := logged (c_imshow "Webcam" f) w1 in
          match n2 with
          | 0%nat => (w2, Running)
          | S n3 =>
              let key := keyboard (surroundings w) (polls w) in
              let w3 := logged (c_waitKey 1 key) (polled w2) in
              if quit key
              then run_for handle n3 cleanup w3
              else match n3 with
                   | 0%nat => (w3, Running)
                   | S n4 => run_for handle n4 from_loop w3
                   end
          end
      end
  end.
Proof.
  intros Hopen. rewrite from_loop_unfold at 1.
  destruct n as [|n1]; [reflexivity|].
  rewrite run_for_vis. cbn [handle]. rewrite Hopen. cbv zeta.
  destruct (feed (surroundings w) (grabs w)) as [f|].
  - destruct n1 as [|n2]; [reflexivity|].
    rewrite run_for_vis. cbn [handle].
    destruct n2 as [|n3]; [reflexivity|].
    rewrite run_for_vis. cbn [handle]. cbv zeta.
    change (polls (logged _ (logged _ (grabbed w)))) with (polls w).
    change (surroundings (logged _ (logged _ (grabbed w)))) with (surroundings w).
    destruct (quit (keyboard (surroundings w) (polls w))); [reflexivity|].
    destruct n3 as [|n4]; reflexivity.
  - destruct n1 as [|n2]; reflexivity.
Qed.

Lemma times_app (p : call -> bool) (l1 l2 : list call) :
  times p (l1 ++ l2) = (times p l1 + times p l2)%nat.
Proof. unfold times. now rewrite filter_app, length_app. Qed.

Lemma yielded_app (l1 l2 : list call) :
  yielded (l1 ++ l2) = yielded l1 ++ yielded l2.
Proof. apply flat_map_app. Qed.

Lemma shown_app (l1 l2 : list call) :
  shown (l1 ++ l2) = shown l1 ++ shown l2.
Proof. apply flat_map_app. Qed.

Lemma frames_of_app (r1 r2 : list (option frame)) :
  frames_of (r1 ++ r2) = frames_of r1 ++ frames_of r2.
Proof. apply flat_map_app. Qed.

(** From the head of the loop on an open capture: what is logged is a
    session or the beginning of one, and once a read has failed or a poll
    has seen the quit key the script is at its end three steps later. *)
Lemma from_loop_log (n : nat) :
  forall w : world,
    is_open (cap w) = true ->
    exists l,
      log (fst (run_for handle n from_loop w)) = log w ++ l
      /\ stands (snd (run_for handle n from_loop w)) l
      /\ (times is_loop_exit l <> 0%nat ->
          forall k, snd (run_for handle (n + 3 + k) from_loop w) = Returned tt).
Proof.
  induction n as [n IH] using lt_wf_ind. intros w Hopen.
  rewrite (run_from_loop n w Hopen).
  destruct n as [|n1].
  { exists []. cbn. rewrite app_nil_r. split; [reflexivity|]. split.
    - eexists. split; [|apply session_read_failure]. discriminate.
    - intros H. now contradiction H. }
  cbv zeta.
  destruct (feed (surroundings w) (grabs w)) as [f|] eqn:Hfeed.
  - (* the read gave a frame *)
    destruct n1 as [|[|n3]].
    + exists [c_read (Some f)]. split; [reflexivity|]. split.
      * exists ([c_imshow "Webcam" f; c_waitKey 1 (ord "q")] ++ closing).
        split; [discriminate|]. now apply (session_quit f (ord "q")).
      * intros H. now contradiction H.
    + exists [c_read (Some f); c_imshow "Webcam" f]. split; [|split].
      * cbn. now rewrite <- app_assoc.
      * exists (c_waitKey 1 (ord "q") :: closing).
        split; [discriminate|]. now apply (session_quit f (ord "q")).
      * intros H. now contradiction H.
    + set (key := keyboard (surroundings w) (polls w)).
      destruct (quit key) eqn:Hq.
      * (* the poll saw the quit key *)
        assert (Hlater : forall m k,
                   snd (run_for handle (S (S (S m)) + 3 + k) from_loop w)
                   = Returned tt).
        { intros m k.
          replace (S (S (S m)) + 3 + k)%nat
            with (S (S (S (S (S (S (m + k)))))))%nat by lia.
          rewrite (run_from_loop _ w Hopen). cbv zeta.
          rewrite Hfeed. fold key. now rewrite Hq, run_cleanup. }
        rewrite run_cleanup. destruct n3 as [|[|n5]].
        -- exists (round f key). split; [|split].
           ++ cbn. now rewrite <- !app_assoc.
           ++ exists closing. split; [discriminate|]. now apply session_quit.
           ++ intros _ k. apply Hlater.
        -- exists (round f key ++ [c_release]). split; [|split].
           ++ cbn. now rewrite <- !app_assoc.
           ++ exists [c_destroyAllWindows]. split; [discriminate|].
              rewrite <- app_assoc. now apply session_quit.
           ++ intros _ k. apply Hlater.
        -- exists (round f key ++ closing). split; [|split].
           ++ cbn. now rewrite <- !app_assoc.
           ++ now apply session_quit.
           ++ intros _ k. apply Hlater.
      * (* the poll saw another key, or none *)
        assert (Hnone : times is_loop_exit (round f key) = 0%nat).
        { unfold times. cbn. now rewrite Hq. }
        destruct n3 as [|n4].
        -- exists (round f key). split; [|split].
           ++ cbn. now rewrite <- !app_assoc.
           ++ eexists. split; [|apply (session_again f key _ Hq), session_read_failure].
              discriminate.
           ++ intros H. now contradiction H.
        -- set (w3 := logged (c_waitKey 1 key) _).
           destruct (IH n4 ltac:(lia) w3 Hopen) as (l4 & Hlog & Hst & Hexit).
           exists (round f key ++ l4). split; [|split].
           ++ rewrite Hlog. cbn. now rewrite <- !app_assoc.
           ++ destruct (snd (run_for handle n4 from_loop w3)); unfold stands in *.
              ** now apply session_again.
              ** exact Hst.
              ** destruct Hst as (more & Hmore & Hs). exists more.
                 split; [exact Hmore|]. rewrite <- app_assoc.
                 now apply session_again.
           ++ rewrite times_app, Hnone. intros H k.
              rewrite (run_from_loop _ w Hopen). cbn [Nat.add]. cbv zeta.
              rewrite Hfeed. fold key. rewrite Hq. now apply Hexit.
  - (* the read failed *)
    assert (Hlater : forall m k,
               snd (run_for handle (S m + 3 + k) from_loop w) = Returned tt).
    { intros m k.
      replace (S m + 3 + k)%nat with (S (S (S (S (m + k)))))%nat by lia.
      rewrite (run_from_loop _ w Hopen). cbv zeta.
      now rewrite Hfeed, run_cleanup. }
    destruct n1 as [|n2].
    + exists [c_read None]. split; [reflexivity|]. split.
      * eexists. split; [|apply session_read_failure]. discriminate.
      * intros _ k. apply Hlater.
    + rewrite run_cleanup. destruct n2 as [|[|n4]].
      * exists [c_read None; c_print grab_failure_message]. split; [|split].
        -- cbn. now rewrite <- !app_assoc.
        -- exists closing. split; [discriminate|]. apply session_read_failure.
        -- intros _ k. apply Hlater.
      * exists [c_read None; c_print grab_failure_message; c_release].
        split; [|split].
        -- cbn. now rewrite <- !app_assoc.
        -- exists [c_destroyAllWindows]. split; [discriminate|].
           apply session_read_failure.
        -- intros _ k. apply Hlater.
      * exists (c_read None :: c_print grab_failure_message :: closing).
        split; [|split].
        -- cbn. now rewrite <- !app_assoc.
        -- apply session_read_failure.
        -- intros _ k. apply Hlater.
Qed.

(** The two statements before the loop. *)
Lemma run_probe (n : nat) (e : env) :
  run n e =
  match n with
  | 0%nat => (boot e, Running)
  | 1%nat => (logged (c_VideoCapture 0)
                (with_cap (if camera e 0 then Opened else Closed) (boot e)),
              Running)
  | S (S n2) =>
      let w2 := logged (c_isOpened (camera e 0))
                  (logged (c_VideoCapture 0)
                     (with_cap (if camera e 0 then Opened else Closed) (boot e))) in
      if camera e 0
      then run_for handle n2 from_loop w2
      else match n2 with
           | 0%nat => (w2, Running)
           | 1%nat => (logged (c_print open_failure_message) w2, Running)
           | _ => (logged (c_exit None) (logged (c_print open_failure_message) w2),
                   Raised (SystemExit None))
           end
  end.
Proof.
  unfold run. rewrite probe_unfold.
  destruct n as [|[|n2]]; [reflexivity|reflexivity|].
  rewrite !run_for_vis. cbn [handle]. cbv zeta.
  destruct (camera e 0) eqn:Hcam; cbn; rewrite Hcam; cbn.
  - reflexivity.
  - destruct n2 as [|[|n4]]; reflexivity.
Qed.

(** The runs on a camera that opens. *)
Lemma probe_opened_log (e : env) (n : nat) :
  camera e 0 = true ->
  (log (fst (run n e)) = firstn n opening /\ snd (run n e) = Running
   /\ (n < 2)%nat)
  \/ exists l,
      log (fst (run n e)) = opening ++ l
      /\ stands (snd (run n e)) l
      /\ (times is_loop_exit l <> 0%nat ->
          forall k, snd (run (n + 3 + k) e) = Returned tt).
Proof.
  intros Hcam. rewrite run_probe.
  destruct n as [|[|n2]].
  - left. repeat split. lia.
  - left. repeat split. lia.
  - right. cbv zeta. rewrite Hcam.
    set (w2 := logged (c_isOpened true) _).
    destruct (from_loop_log n2 w2 eq_refl) as (l & Hlog & Hst & Hexit).
    exists l. split; [|split].
    + rewrite Hlog. reflexivity.
    + exact Hst.
    + intros H k. rewrite run_probe. cbn [Nat.add]. cbv zeta.
      rewrite Hcam. now apply Hexit.
Qed.

(** The runs on a camera that does not open. *)
Lemma probe_unopened_log (e : env) (n : nat) :
  camera e 0 = false ->
  log (fst (run n e)) = firstn n open_failure_log
  /\ snd (run n e)
     = if (4 <=? n)%nat then Raised (SystemExit None) else Running.
Proof.
  intros Hcam. rewrite run_probe.
  destruct n as [|[|[|[|n4]]]]; cbv zeta; rewrite ?Hcam; split;
    try reflexivity.
  cbn. now rewrite firstn_nil.
Qed.

(** *** Sessions *)

(** Walking down a log that begins a known one: [l] is empty, or its
    head is the head of the known log. *)
Ltac walk l H :=
  destruct l as [|? l]; cbn [app] in H; [|injection H as -> H].

(** A session ends with the release and the closing of the windows, and
    holds no other. *)
Lemma session_closing (l : list call) :
  session l ->
  exists before,
    l = before ++ closing
    /\ times is_release before = 0%nat
    /\ times is_destroyAllWindows before = 0%nat.
Proof.
  induction 1 as [|f key Hq|f key l Hq Hs (before & -> & Hr & Hd)].
  - now exists [c_read None; c_print grab_failure_message].
  - now exists (round f key).
  - exists (round f key ++ before). rewrite !times_app, Hr, Hd.
    now rewrite app_assoc.
Qed.

(** In a session every frame read is shown, once and in the order
    read. *)
Lemma session_shown (l : list call) :
  session l -> frames_of (yielded l) = shown l.
Proof.
  induction 1 as [|f key Hq|f key l Hq Hs IH]; try reflexivity.
  now rewrite yielded_app, shown_app, frames_of_app, IH.
Qed.

(** A session whose reads are [N] frames and then a failure. *)
Lemma session_read_failure_after (l : list call) :
  session l ->
  forall fs : list frame,
    yielded l = List.map Some fs ++ [None] ->
    shown l = fs
    /\ times is_imshow l = List.length fs
    /\ times is_read l = S (List.length fs)
    /\ times (is_print grab_failure_message) l = 1%nat
    /\ times is_quit_poll l = 0%nat
    /\ exists before,
        l = before ++ [c_read None; c_print grab_failure_message] ++ closing.
Proof.
  induction 1 as [|f key Hq|f key l Hq Hs IH]; intros fs Hy.
  - destruct fs as [|f' fs]; cbn in Hy.
    + repeat split. now exists [].
    + inversion Hy.
  - destruct fs as [|f' fs]; cbn in Hy; [discriminate|].
    inversion Hy. now destruct fs.
  - assert (Hnone : times is_quit_poll (round f key) = 0%nat).
    { unfold times. cbn. now rewrite Hq. }
    rewrite yielded_app in Hy. change (yielded (round f key)) with [Some f] in Hy.
    destruct fs as [|f' fs]; cbn [app List.map] in Hy; [discriminate|].
    injection Hy as <- Hy.
    destruct (IH fs Hy) as (Hshown & Himshow & Hread & Hprint & Hpoll & before & Hl).
    rewrite shown_app, !times_app, Hshown, Himshow, Hread, Hprint, Hpoll, Hnone.
    repeat split. exists (round f key ++ before). now rewrite Hl, app_assoc.
Qed.

(** At any point of a session every frame read so far has been shown,
    once and in the order read, but for the frame just read when the
    point is between a read and its [imshow]. *)
Lemma session_begin_shown (s : list call) :
  session s ->
  forall l more,
    l ++ more = s ->
    frames_of (yielded l) = shown l
    \/ exists l0 f,
        l = l0 ++ [c_read (Some f)] /\ frames_of (yielded l0) = shown l0.
Proof.
  induction 1 as [|f key Hq|f key s Hq Hs IH]; intros l more H.
  - do 4 (walk l H; [now left|]).
    apply app_eq_nil in H as [-> _]. now left.
  - walk l H; [now left|].
    walk l H; [right; now exists [], f|].
    do 3 (walk l H; [now left|]).
    apply app_eq_nil in H as [-> _]. now left.
  - walk l H; [now left|].
    walk l H; [right; now exists [], f|].
    walk l H; [now left|].
    destruct (IH l more H) as [Heq | (l0 & f' & Hl & Heq)].
    + left. change (frames_of (yielded (round f key ++ l))
                    = shown (round f key ++ l)).
      now rewrite yielded_app, shown_app, frames_of_app, Heq.
    + right. exists (round f key ++ l0), f'. split.
      * cbn. now rewrite Hl.
      * now rewrite yielded_app, shown_app, frames_of_app, Heq.
Qed.

(** In a session every poll comes right after the [imshow] of the frame
    read right before. *)
Lemma session_poll_after_show (s : list call) :
  session s ->
  forall l1 d key l2,
    l1 ++ c_waitKey d key :: l2 = s ->
    exists l0 f, l1 = l0 ++ [c_read (Some f); c_imshow "Webcam" f].
Proof.
  induction 1 as [|f key' Hq|f key' s Hq Hs IH]; intros l1 d key l2 H.
  - do 4 (walk l1 H; [discriminate H|]). now destruct l1.
  - do 2 (walk l1 H; [discriminate H|]).
    walk l1 H; [now exists [], f|].
    do 2 (walk l1 H; [discriminate H|]). now destruct l1.
  - do 2 (walk l1 H; [discriminate H|]).
    walk l1 H; [now exists [], f|].
    destruct (IH _ _ _ _ H) as (l0 & f' & ->).
    now exists (round f key' ++ l0), f'.
Qed.

(** In a session nothing but the release and the closing of the windows
    comes after the poll that saw the quit key. *)
Lemma session_after_quit (s : list call) :
  session s ->
  forall l1 c l2,
    l1 ++ c :: l2 = s -> is_quit_poll c = true -> l2 = closing.
Proof.
  induction 1 as [|f key Hq|f key s Hq Hs IH]; intros l1 c l2 H Hc.
  - do 4 (walk l1 H; [injection H as -> ->; discriminate Hc|]).
    now destruct l1.
  - do 2 (walk l1 H; [injection H as -> ->; discriminate Hc|]).
    walk l1 H; [now injection H as -> ->|].
    do 2 (walk l1 H; [injection H as -> ->; discriminate Hc|]).
    now destruct l1.
  - do 2 (walk l1 H; [injection H as -> ->; discriminate Hc|]).
    walk l1 H; [injection H as -> ->; cbn in Hc; congruence|].
    now apply (IH l1 c l2).
Qed.

(** In a session the closing of the windows is all that comes after the
    release. *)
Lemma session_after_release (s : list call) :
  session s ->
  forall l1 l2, l1 ++ c_release :: l2 = s -> l2 = [c_destroyAllWindows].
Proof.
  induction 1 as [|f key Hq|f key s Hq Hs IH]; intros l1 l2 H.
  - do 2 (walk l1 H; [discriminate H|]).
    walk l1 H; [now injection H as ->|].
    walk l1 H; [discriminate H|]. now destruct l1.
  - do 3 (walk l1 H; [discriminate H|]).
    walk l1 H; [now injection H as ->|].
    walk l1 H; [discriminate H|]. now destruct l1.
  - do 3 (walk l1 H; [discriminate H|]).
    now apply (IH l1).
Qed.

(** At any point of a session, the release and the closing of the windows
    have only been made once a read has failed or a poll has seen the
    quit key. *)
Lemma session_begin_cleanup (s : list call) :
  session s ->
  forall l more,
    l ++ more = s ->
    times is_release l <> 0%nat \/ times is_destroyAllWindows l <> 0%nat ->
    times is_loop_exit l <> 0%nat.
Proof.
  induction 1 as [|f key Hq|f key s Hq Hs IH]; intros l more H Hc.
  - walk l H; [now destruct Hc|]. discriminate.
  - do 3 (walk l H; [now destruct Hc|]).
    unfold times. cbn. rewrite Hq. discriminate.
  - do 3 (walk l H; [now destruct Hc|]).
    change (c_read (Some f) :: c_imshow "Webcam" f :: c_waitKey 1 key :: l)
      with (round f key ++ l) in *.
    rewrite !times_app in *.
    change (times is_release (round f key)) with 0%nat in Hc.
    change (times is_destroyAllWindows (round f key)) with 0%nat in Hc.
    specialize (IH l more H Hc). lia.
Qed.

(** The reads of a session stop at the first that fails. *)
Lemma session_yielded_failure (s : list call) :
  session s ->
  forall fs more,
    yielded s = (List.map Some fs ++ [None]) ++ more -> more = [].
Proof.
  induction 1 as [|f key Hq|f key s Hq Hs IH]; intros fs more Hy.
  - destruct fs as [|f' fs]; cbn in Hy; [congruence|].
    injection Hy as _ Hy. now destruct fs.
  - destruct fs as [|f' fs]; cbn in Hy; [discriminate|].
    injection Hy as _ Hy. now destruct fs.
  - rewrite yielded_app in Hy. change (yielded (round f key)) with [Some f] in Hy.
    destruct fs as [|f' fs]; cbn [app List.map] in Hy; [discriminate|].
    injection Hy as _ Hy. now apply (IH fs).
Qed.

(** *** Logs only grow *)

Lemma handle_log (T : Type) (e : cvE T) (w : world) :
  exists c, log (fst (handle T e w)) = log w ++ [c].
Proof.
  destruct e; cbn; try (eexists; reflexivity).
  destruct (is_open (cap w)); eexists; reflexivity.
Qed.

Lemma run_for_log_extends {R} (k : nat) :
  forall (t : itree cvE R) (w : world),
    exists more, log (fst (run_for handle k t w)) = log w ++ more.
Proof.
  induction k as [|k IH]; intros t w; cbn;
    destruct (observe t) as [r|t'|X e c];
    try (exists []; now rewrite app_nil_r); auto.
  destruct (handle_log X e w) as (c0 & Hc).
  destruct (handle X e w) as [w' [a|x]]; cbn in Hc.
  - destruct (IH (c a) w') as (more & ->). rewrite Hc, <- app_assoc. eauto.
  - cbn. eauto.
Qed.

Lemma run_for_log_grows {R} (n : nat) :
  forall (k : nat) (t : itree cvE R) (w : world),
    exists more,
      log (fst (run_for handle (n + k) t w))
      = log (fst (run_for handle n t w)) ++ more.
Proof.
  induction n as [|n IH]; intros k t w.
  - cbn [Nat.add]. destruct (run_for_log_extends k t w) as (more & ->).
    exists more. cbn. now destruct (observe t).
  - cbn. destruct (observe t) as [r|t'|X e c].
    + exists []. now rewrite app_nil_r.
    + apply IH.
    + destruct (handle X e w) as [w' [a|x]].
      * apply IH.
      * exists []. now rewrite app_nil_r.
Qed.

(** *** Counting *)

Lemma times_cons (p : call -> bool) (c : call) (l : list call) :
  times p (c :: l) = ((if p c then 1 else 0) + times p l)%nat.
Proof. unfold times. cbn. now destruct (p c). Qed.

Lemma times_split (p : call -> bool) (l1 l2 : list call) (c : call) :
  p c = true -> times p (l1 ++ c :: l2) <> 0%nat.
Proof. intros H. rewrite times_app, times_cons, H. lia. Qed.

Lemma times_firstn (p : call -> bool) (n : nat) (l : list call) :
  times p l = 0%nat -> times p (firstn n l) = 0%nat.
Proof.
  revert n. induction l as [|c l IH]; intros [|n] H; try reflexivity.
  rewrite times_cons in H. cbn [firstn]. rewrite times_cons.
  destruct (p c); [discriminate|]. now apply IH.
Qed.

Lemma quit_poll_loop_exit (l : list call) :
  times is_quit_poll l <> 0%nat -> times is_loop_exit l <> 0%nat.
Proof.
  induction l as [|c l IH]; [easy|]. rewrite !times_cons.
  destruct c as [| |r| |d key| | | |]; cbn; auto.
  - destruct r; cbn; auto.
  - destruct (quit key); cbn; auto.
Qed.

Lemma read_failure_loop_exit (l : list call) :
  In None (yielded l) -> times is_loop_exit l <> 0%nat.
Proof.
  induction l as [|c l IH]; [easy|]. rewrite times_cons.
  destruct c as [| |r| |d key| | | |]; cbn; auto.
  - intros [->|H]; cbn; auto. destruct r; cbn; auto.
  - destruct (quit key); cbn; auto.
Qed.

(** *** Every log begins a full log *)

(** On a camera that opens, whatever was logged so far is the beginning
    of the opening followed by a session, and is all of it when the
    script is at its end; nothing is raised. *)
Lemma probe_log_begins_session (e : env) (n : nat) :
  camera e 0 = true ->
  (forall x, snd (run n e) <> Raised x)
  /\ exists s more,
      session s
      /\ log (fst (run n e)) ++ more = opening ++ s
      /\ (snd (run n e) = Returned tt -> more = [])
      /\ (snd (run n e) = Running -> more <> []).
Proof.
  intros Hcam.
  destruct (probe_opened_log e n Hcam) as [(HL & Hrun & Hn) | (l & HL & Hst & _)].
  - rewrite Hrun, HL. split; [discriminate|].
    exists (c_read None :: c_print grab_failure_message :: closing).
    exists (skipn n opening
            ++ c_read None :: c_print grab_failure_message :: closing).
    split; [apply session_read_failure|]. split; [|split].
    + now rewrite app_assoc, firstn_skipn.
    + discriminate.
    + intros _. now destruct (skipn n opening).
  - rewrite HL. destruct (snd (run n e)) as [[]|x|]; cbn in Hst.
    + split; [discriminate|]. exists l, []. rewrite app_nil_r.
      repeat split; auto. discriminate.
    + contradiction.
    + split; [discriminate|]. destruct Hst as (more & Hmore & Hs).
      exists (l ++ more), more. rewrite <- app_assoc.
      repeat split; auto. discriminate.
Qed.

(** In a session the [imshow] of a frame comes right after its read. *)
Lemma session_show_after_read (s : list call) :
  session s ->
  forall l1 f l2,
    l1 ++ c_read (Some f) :: l2 = s ->
    exists l3, l2 = c_imshow "Webcam" f :: l3.
Proof.
  induction 1 as [|f' key Hq|f' key s Hq Hs IH]; intros l1 f l2 H.
  - do 4 (walk l1 H; [discriminate H|]). now destruct l1.
  - walk l1 H; [injection H as -> ->; eauto|].
    do 4 (walk l1 H; [discriminate H|]). now destruct l1.
  - walk l1 H; [injection H as -> ->; eauto|].
    do 2 (walk l1 H; [discriminate H|]).
    now apply (IH l1).
Qed.

(** Whatever a run has logged is the beginning of a full log. *)
Lemma probe_log_begins_full (e : env) (n : nat) :
  exists full more, full_log full /\ log (fst (run n e)) ++ more = full.
Proof.
  destruct (camera e 0) eqn:Hcam.
  - destruct (probe_log_begins_session e n Hcam) as (_ & s & more & Hs & HL & _).
    exists (opening ++ s), more. split; [right; eauto|exact HL].
  - destruct (probe_unopened_log e n Hcam) as [-> _].
    exists open_failure_log, (skipn n open_failure_log).
    split; [now left|apply firstn_skipn].
Qed.

Lemma full_begin_shown (full : list call) :
  full_log full ->
  forall l more,
    l ++ more = full ->
    frames_of (yielded l) = shown l
    \/ exists l0 f,
        l = l0 ++ [c_read (Some f)] /\ frames_of (yielded l0) = shown l0.
Proof.
  intros [-> | (s & Hs & ->)] l more H.
  - do 4 (walk l H; [now left|]).
    apply app_eq_nil in H as [-> _]. now left.
  - do 2 (walk l H; [now left|]).
    destruct (session_begin_shown s Hs l more H) as [Heq | (l0 & f & -> & Heq)].
    + now left.
    + right. now exists (opening ++ l0), f.
Qed.

Lemma full_show_after_read (full : list call) :
  full_log full ->
  forall l1 f l2,
    l1 ++ c_read (Some f) :: l2 = full ->
    exists l3, l2 = c_imshow "Webcam" f :: l3.
Proof.
  intros [-> | (s & Hs & ->)] l1 f l2 H.
  - do 4 (walk l1 H; [discriminate H|]). now destruct l1.
  - do 2 (walk l1 H; [discriminate H|]).
    now apply (session_show_after_read s Hs l1).
Qed.

Lemma full_poll_after_show (full : list call) :
  full_log full ->
  forall l1 d key l2,
    l1 ++ c_waitKey d key :: l2 = full ->
    exists l0 f, l1 = l0 ++ [c_read (Some f); c_imshow "Webcam" f].
Proof.
  intros [-> | (s & Hs & ->)] l1 d key l2 H.
  - do 4 (walk l1 H; [discriminate H|]). now destruct l1.
  - do 2 (walk l1 H; [discriminate H|]).
    destruct (session_poll_after_show s Hs l1 d key l2 H) as (l0 & f & ->).
    now exists (opening ++ l0), f.
Qed.

Lemma full_after_release (full : list call) :
  full_log full ->
  forall l1 l2, l1 ++ c_release :: l2 = full -> l2 = [c_destroyAllWindows].
Proof.
  intros [-> | (s & Hs & ->)] l1 l2 H.
  - do 4 (walk l1 H; [discriminate H|]). now destruct l1.
  - do 2 (walk l1 H; [discriminate H|]).
    now apply (session_after_release s Hs l1).
Qed.

Lemma full_after_quit (full : list call) :
  full_log full ->
  forall l1 c l2,
    l1 ++ c :: l2 = full -> is_quit_poll c = true -> l2 = closing.
Proof.
  intros [-> | (s & Hs & ->)] l1 c l2 H Hc.
  - do 4 (walk l1 H; [injection H as -> ->; discriminate Hc|]).
    now destruct l1.
  - do 2 (walk l1 H; [injection H as -> ->; discriminate Hc|]).
    now apply (session_after_quit s Hs l1 c).
Qed.

(** *** The camera does not open *)

(** C3: when device 0 cannot be opened, the probe logs the attempt, the
    check, the failure message and the exit, in that order and nothing
    else; from the fourth step on the run has ended in [SystemExit]; and
    at no step has a frame been read, shown or a key polled. *)
Theorem open_failure_exits_before_loop (e : env) :
  camera e 0 = false ->
  (forall k,
      log (fst (run (4 + k) e))
      = [c_VideoCapture 0; c_isOpened false; c_print open_failure_message;
         c_exit None]
      /\ snd (run (4 + k) e) = Raised (SystemExit None))
  /\ (forall n,
      log (fst (run n e))
      = firstn n [c_VideoCapture 0; c_isOpened false;
                  c_print open_failure_message; c_exit None]
      /\ times is_read (log (fst (run n e))) = 0%nat
      /\ times is_imshow (log (fst (run n e))) = 0%nat
      /\ times is_waitKey (log (fst (run n e))) = 0%nat).
Proof.
  intros Hcam. split.
  - intros k. destruct (probe_unopened_log e (4 + k) Hcam) as [-> ->].
    cbn. now rewrite firstn_nil.
  - intros n. destruct (probe_unopened_log e n Hcam) as [-> _].
    repeat split; now apply times_firstn.
Qed.

Lemma open_failure_exits_before_loop_witness :
  snd (run 4 no_camera) = Raised (SystemExit None)
  /\ times is_read (log (fst (run 7 no_camera))) = 0%nat.
Proof.
  split.
  - apply (proj1 (open_failure_exits_before_loop no_camera eq_refl) 0%nat).
  - apply (proj2 (open_failure_exits_before_loop no_camera eq_refl) 7%nat).
Defined.

(** C4, as amended: when device 0 cannot be opened, the run ends in
    [SystemExit(None)], [exit()] being called without a code, and the
    exit status is 0. *)
Theorem open_failure_exit_status (e : env) (k : nat) :
  camera e 0 = false ->
  snd (run (4 + k) e) = Raised (SystemExit None)
  /\ exit_status (snd (run (4 + k) e)) = Some 0.
Proof.
  intros Hcam.
  destruct (probe_unopened_log e (4 + k) Hcam) as [_ ->]. now split.
Qed.

Lemma open_failure_exit_status_witness :
  exit_status (snd (run 4 no_camera)) = Some 0.
Proof. apply (open_failure_exit_status no_camera 0 eq_refl). Defined.

(** C4, as stated, fails on a machine without a camera: the exit status
    of the run is 0, so it is not true that every exit status it ends
    with is non-zero. *)
Lemma nonzero_status_on_open_failure_fails :
  camera no_camera 0 = false
  /\ exit_status (snd (run 4 no_camera)) = Some 0
  /\ ~ (forall status,
           exit_status (snd (run 4 no_camera)) = Some status -> status <> 0).
Proof.
  split; [reflexivity|]. split; [reflexivity|].
  intros H. now apply (H 0).
Qed.

(** C10: when device 0 cannot be opened, at no step has the device been
    released or the windows been closed; and on any machine, a log that
    holds the release or the closing of the windows is the log of a run
    whose camera opened and whose loop was left, by a failed read or by
    a poll that saw the quit key. *)
Theorem open_failure_skips_cleanup (e : env) (n : nat) :
  (camera e 0 = false ->
   times is_release (log (fst (run n e))) = 0%nat
   /\ times is_destroyAllWindows (log (fst (run n e))) = 0%nat)
  /\ (times is_release (log (fst (run n e))) <> 0%nat
      \/ times is_destroyAllWindows (log (fst (run n e))) <> 0%nat ->
      camera e 0 = true
      /\ times is_loop_exit (log (fst (run n e))) <> 0%nat).
Proof.
  assert (Hclosed : camera e 0 = false ->
                    times is_release (log (fst (run n e))) = 0%nat
                    /\ times is_destroyAllWindows (log (fst (run n e))) = 0%nat).
  { intros Hcam. destruct (probe_unopened_log e n Hcam) as [-> _].
    split; now apply times_firstn. }
  split; [exact Hclosed|]. intros Hc.
  destruct (camera e 0) eqn:Hcam.
  - split; [reflexivity|].
    destruct (probe_log_begins_session e n Hcam) as (_ & s & more & Hs & HL & _).
    remember (log (fst (run n e))) as l eqn:El. clear El.
    do 2 (walk l HL; [now destruct Hc|]).
    rewrite !times_cons in *. cbn in Hc |- *.
    now apply (session_begin_cleanup s Hs l more).
  - destruct (Hclosed eq_refl) as [Hr Hd]. rewrite Hr, Hd in Hc.
    now destruct Hc.
Qed.

Lemma open_failure_skips_cleanup_witness :
  times is_release (log (fst (run 9 no_camera))) = 0%nat
  /\ camera (webcam [] []) 0 = true.
Proof.
  split.
  - apply (proj1 (open_failure_skips_cleanup no_camera 9) eq_refl).
  - apply (proj2 (open_failure_skips_cleanup (webcam [] []) 9)).
    left. vm_compute. discriminate.
Defined.

(** *** The loop *)

(** C2: when the camera opens and the reads the probe has made of it
    gave [N] frames [fs] and then failed, three steps later the script
    has reached its end without raising; by then it has shown exactly
    the [N] frames, one [imshow] a frame, has made [N + 1] reads, has
    printed the frame-failure message once, has seen no quit key, and
    its log ends with the failed read, the message, the release and the
    closing of the windows: the loop was left once, at the failed read. *)
Theorem frames_then_read_failure (e : env) (n : nat) (fs : list frame) :
  camera e 0 = true ->
  yielded (log (fst (run n e))) = List.map Some fs ++ [None] ->
  forall k,
    snd (run (n + 3 + k) e) = Returned tt
    /\ shown (log (fst (run (n + 3 + k) e))) = fs
    /\ times is_imshow (log (fst (run (n + 3 + k) e))) = List.length fs
    /\ times is_read (log (fst (run (n + 3 + k) e))) = S (List.length fs)
    /\ times (is_print grab_failure_message) (log (fst (run (n + 3 + k) e)))
       = 1%nat
    /\ times is_quit_poll (log (fst (run (n + 3 + k) e))) = 0%nat
    /\ exists before,
        log (fst (run (n + 3 + k) e))
        = before ++ [c_read None; c_print grab_failure_message;
                     c_release; c_destroyAllWindows].
Proof.
  intros Hcam Hy k.
  assert (Hexit : times is_loop_exit (log (fst (run n e))) <> 0%nat).
  { apply read_failure_loop_exit. rewrite Hy. apply in_or_app. right. now left. }
  assert (Hret : snd (run (n + 3 + k) e) = Returned tt).
  { destruct (probe_opened_log e n Hcam) as [(HL & _ & Hn) | (l & HL & _ & H)].
    - rewrite HL in Hexit. contradiction Hexit. now apply times_firstn.
    - apply H. now rewrite HL, times_app in Hexit. }
  split; [exact Hret|].
  destruct (probe_log_begins_session e (n + 3 + k) Hcam)
    as (_ & s & more & Hs & HL & Hmore & _).
  rewrite (Hmore Hret), app_nil_r in HL. clear Hmore.
  destruct (run_for_log_grows n (3 + k) probe (boot e)) as (later & Hlater).
  rewrite Nat.add_assoc in Hlater. fold (run (n + 3 + k) e) in Hlater.
  fold (run n e) in Hlater.
  assert (Hys : yielded s = (List.map Some fs ++ [None]) ++ yielded later).
  { change (yielded s) with (yielded (opening ++ s)).
    now rewrite <- HL, Hlater, yielded_app, Hy. }
  rewrite (session_yielded_failure s Hs fs _ Hys), app_nil_r in Hys.
  destruct (session_read_failure_after s Hs fs Hys)
    as (Hshown & Himshow & Hread & Hprint & Hpoll & before & Hbefore).
  rewrite HL, shown_app, !times_app, Hshown, Himshow, Hread, Hprint, Hpoll.
  repeat split. exists (opening ++ before). now rewrite Hbefore, app_assoc.
Qed.

Lemma frames_then_read_failure_witness :
  snd (run 14 (webcam [[1]; [2]] [])) = Returned tt
  /\ shown (log (fst (run 14 (webcam [[1]; [2]] [])))) = [[1]; [2]].
Proof.
  pose proof (frames_then_read_failure (webcam [[1]; [2]] []) 11 [[1]; [2]]
                eq_refl eq_refl 0%nat) as H.
  split; [exact (proj1 H)|exact (proj1 (proj2 H))].
Defined.

(** C5: once a poll has seen the quit key, three steps later the script
    has reached its end; that poll came right after a frame was read and
    shown, and nothing but the release and the closing of the windows
    comes after it; a run that has reached its end, whichever way the
    loop was left, has released the device once and closed the windows
    once, as its last two calls, the release first; and at no step of any
    run is a call made on the capture object after its release. *)
Theorem quit_key_ends_loop_cleanup_once (e : env) (n : nat) :
  (times is_quit_poll (log (fst (run n e))) <> 0%nat ->
   forall k, snd (run (n + 3 + k) e) = Returned tt)
  /\ (forall l1 c l2,
         log (fst (run n e)) = l1 ++ c :: l2 ->
         is_quit_poll c = true ->
         (exists l0 f, l1 = l0 ++ [c_read (Some f); c_imshow "Webcam" f])
         /\ exists more, l2 ++ more = [c_release; c_destroyAllWindows])
  /\ (snd (run n e) = Returned tt ->
      times is_release (log (fst (run n e))) = 1%nat
      /\ times is_destroyAllWindows (log (fst (run n e))) = 1%nat
      /\ exists before,
          log (fst (run n e)) = before ++ [c_release; c_destroyAllWindows]
          /\ times is_release before = 0%nat
          /\ times is_destroyAllWindows before = 0%nat)
  /\ (forall l1 l2,
         log (fst (run n e)) = l1 ++ c_release :: l2 ->
         times on_cap l2 = 0%nat).
Proof.
  split; [|split; [|split]].
  - intros Hquit. destruct (camera e 0) eqn:Hcam.
    + destruct (probe_opened_log e n Hcam) as [(HL & _ & Hn) | (l & HL & _ & H)].
      * rewrite HL in Hquit. contradiction Hquit. now apply times_firstn.
      * apply H. apply quit_poll_loop_exit. now rewrite HL, times_app in Hquit.
    + destruct (probe_unopened_log e n Hcam) as [HL _].
      rewrite HL in Hquit. contradiction Hquit. now apply times_firstn.
  - intros l1 c l2 HL Hc.
    destruct (probe_log_begins_full e n) as (full & more & Hfull & H).
    rewrite HL, <- app_assoc in H. cbn [app] in H.
    split.
    + destruct c as [| | | |d key| | | |]; try discriminate Hc.
      now apply (full_poll_after_show full Hfull l1 d key (l2 ++ more)).
    + exists more. now apply (full_after_quit full Hfull l1 c).
  - intros Hret. destruct (camera e 0) eqn:Hcam.
    + destruct (probe_log_begins_session e n Hcam)
        as (_ & s & more & Hs & HL & Hmore & _).
      rewrite (Hmore Hret), app_nil_r in HL.
      destruct (session_closing s Hs) as (before & -> & Hr & Hd).
      rewrite HL, app_assoc, !times_app, Hr, Hd.
      repeat split. exists (opening ++ before). now rewrite !times_app, Hr, Hd.
    + destruct (probe_unopened_log e n Hcam) as [_ Ho].
      rewrite Hret in Ho. now destruct (4 <=? n)%nat.
  - intros l1 l2 HL.
    destruct (probe_log_begins_full e n) as (full & more & Hfull & H).
    rewrite HL, <- app_assoc in H. cbn [app] in H.
    apply (full_after_release full Hfull) in H.
    destruct l2 as [|c [|c' l2]]; try discriminate H; [reflexivity|].
    now injection H as -> _.
Qed.

Lemma quit_key_ends_loop_cleanup_once_witness :
  snd (run 8 (webcam [[1]; [2]] [ord "q"])) = Returned tt
  /\ times is_release (log (fst (run 8 (webcam [[1]; [2]] [ord "q"])))) = 1%nat
  /\ (exists more, [c_release] ++ more = [c_release; c_destroyAllWindows])
  /\ times on_cap [c_destroyAllWindows] = 0%nat.
Proof.
  pose proof (quit_key_ends_loop_cleanup_once (webcam [[1]; [2]] [ord "q"]))
    as H.
  split; [|split; [|split]].
  - apply (proj1 (H 5%nat)). vm_compute. discriminate.
  - apply (proj1 (proj2 (proj2 (H 8%nat)))). reflexivity.
  - apply (proj2 (proj1 (proj2 (H 6%nat))
             [c_VideoCapture 0; c_isOpened true; c_read (Some [1]);
              c_imshow "Webcam" [1]]
             (c_waitKey 1 (ord "q")) [c_release] eq_refl eq_refl)).
  - apply (proj2 (proj2 (proj2 (H 7%nat)))
             [c_VideoCapture 0; c_isOpened true; c_read (Some [1]);
              c_imshow "Webcam" [1]; c_waitKey 1 (ord "q")]
             [c_destroyAllWindows] eq_refl).
Defined.

(** C9: at every step of every run, the frames shown are the frames
    read, in the order read and each once, but for the frame just read
    when the step falls between a read and its [imshow]; when the run is
    over they are all shown; the [imshow] of a frame is the call right
    after its read; and every poll of the keyboard is the call right
    after the [imshow] of the frame read right before. *)
Theorem every_frame_read_is_shown_once (e : env) (n : nat) :
  (frames_of (yielded (log (fst (run n e)))) = shown (log (fst (run n e)))
   \/ exists l0 f,
       log (fst (run n e)) = l0 ++ [c_read (Some f)]
       /\ frames_of (yielded l0) = shown l0)
  /\ (snd (run n e) <> Running ->
      frames_of (yielded (log (fst (run n e)))) = shown (log (fst (run n e))))
  /\ (forall l1 f l2,
         log (fst (run n e)) = l1 ++ c_read (Some f) :: l2 ->
         l2 = [] \/ exists l3, l2 = c_imshow "Webcam" f :: l3)
  /\ (forall l1 d key l2,
         log (fst (run n e)) = l1 ++ c_waitKey d key :: l2 ->
         exists l0 f, l1 = l0 ++ [c_read (Some f); c_imshow "Webcam" f]).
Proof.
  destruct (probe_log_begins_full e n) as (full & more & Hfull & H).
  split; [|split; [|split]].
  - now apply (full_begin_shown full Hfull _ more).
  - intros Hover. destruct (camera e 0) eqn:Hcam.
    + destruct (probe_log_begins_session e n Hcam)
        as (Hraised & s & more' & Hs & HL & Hmore & _).
      destruct (snd (run n e)) as [[]|x|];
        [|now contradiction (Hraised x)|now contradiction Hover].
      rewrite (Hmore eq_refl), app_nil_r in HL. rewrite HL.
      change (frames_of (yielded s) = shown s). now apply session_shown.
    + destruct (probe_unopened_log e n Hcam) as [-> _].
      destruct n as [|[|[|[|n]]]]; try reflexivity.
      cbn. now rewrite firstn_nil.
  - intros l1 f l2 HL. rewrite HL, <- app_assoc in H. cbn [app] in H.
    destruct (full_show_after_read full Hfull l1 f _ H) as (l3 & Hl3).
    destruct l2 as [|c l2]; [now left|right].
    injection Hl3 as -> _. now exists l2.
  - intros l1 d key l2 HL. rewrite HL, <- app_assoc in H. cbn [app] in H.
    now apply (full_poll_after_show full Hfull l1 d key _ H).
Qed.

Lemma every_frame_read_is_shown_once_witness :
  frames_of (yielded (log (fst (run 14 (webcam [[1]; [2]] [])))))
  = shown (log (fst (run 14 (webcam [[1]; [2]] []))))
  /\ ([c_imshow "Webcam" [1]] = []
      \/ exists l3, [c_imshow "Webcam" [1]] = c_imshow "Webcam" [1] :: l3)
  /\ exists l0 f,
      [c_VideoCapture 0; c_isOpened true; c_read (Some [1]);
       c_imshow "Webcam" [1]]
      = l0 ++ [c_read (Some f); c_imshow "Webcam" f].
Proof.
  split; [|split].
  - apply (proj1 (proj2 (every_frame_read_is_shown_once
                           (webcam [[1]; [2]] []) 14))).
    vm_compute. discriminate.
  - apply (proj1 (proj2 (proj2 (every_frame_read_is_shown_once
                                  (webcam [[1]; [2]] []) 4)))
             [c_VideoCapture 0; c_isOpened true] [1]
             [c_imshow "Webcam" [1]] eq_refl).
  - apply (proj2 (proj2 (proj2 (every_frame_read_is_shown_once
                                  (webcam [[1]; [2]] []) 5)))
             [c_VideoCapture 0; c_isOpened true; c_read (Some [1]);
              c_imshow "Webcam" [1]] 1 (-1) [] eq_refl).
Defined.

(** *** Cameras and keyboards *)

(** From the head of the loop: as long as the reads give frames and no
    poll sees the quit key, each turn takes four steps, and the read
    that fails is made on the step after. *)
Lemma from_loop_feed (fs : list frame) :
  forall w : world,
    is_open (cap w) = true ->
    (forall i, (i < List.length fs)%nat ->
               feed (surroundings w) (grabs w + i) = Some (nth i fs [])
               /\ quit (keyboard (surroundings w) (polls w + i)) = false) ->
    feed (surroundings w) (grabs w + List.length fs) = None ->
    yielded (log (fst (run_for handle (4 * List.length fs + 1) from_loop w)))
    = yielded (log w) ++ List.map Some fs ++ [None].
Proof.
  induction fs as [|f fs IH]; intros w Hopen Hfeed Hend.
  - rewrite (run_from_loop _ w Hopen). cbn in Hend |- *.
    rewrite Nat.add_0_r in Hend. rewrite Hend. cbn. now rewrite yielded_app.
  - replace (4 * List.length (f :: fs) + 1)%nat
      with (S (S (S (S (4 * List.length fs + 1)))))%nat by (cbn; lia).
    rewrite (run_from_loop _ w Hopen). cbv zeta.
    destruct (Hfeed 0%nat ltac:(cbn; lia)) as [Hf Hq].
    rewrite !Nat.add_0_r in Hf, Hq. cbn [nth] in Hf. rewrite Hf, Hq.
    set (w3 := logged (c_waitKey 1 _) _).
    rewrite (IH w3 Hopen).
    + subst w3. cbn. rewrite !yielded_app. cbn. now rewrite <- !app_assoc.
    + intros i Hi. destruct (Hfeed (S i) ltac:(cbn; lia)) as [Hf' Hq'].
      rewrite Nat.add_succ_r in Hf', Hq'. cbn [nth] in Hf'. now split.
    + cbn [List.length] in Hend. now rewrite Nat.add_succ_r in Hend.
Qed.

(** A camera that opens, gives the [N] frames [fs] and then fails, while
    no poll sees the quit key, yields the probe exactly that, by step
    [4 N + 3]. *)
Lemma feed_then_failure (e : env) (fs : list frame) :
  camera e 0 = true ->
  (forall i, (i < List.length fs)%nat ->
             feed e i = Some (nth i fs []) /\ quit (keyboard e i) = false) ->
  feed e (List.length fs) = None ->
  yielded (log (fst (run (4 * List.length fs + 3) e)))
  = List.map Some fs ++ [None].
Proof.
  intros Hcam Hfeed Hend. rewrite run_probe.
  replace (4 * List.length fs + 3)%nat
    with (S (S (4 * List.length fs + 1)))%nat by lia.
  cbv zeta. rewrite Hcam.
  set (w2 := logged (c_isOpened true) _).
  now rewrite (from_loop_feed fs w2 eq_refl Hfeed Hend).
Qed.

(** On a camera that never fails and a keyboard that never sends the
    quit key the probe never ends. *)
Lemma endless_feed_never_ends (e : env) (n : nat) :
  camera e 0 = true ->
  (forall i, feed e i <> None) ->
  (forall i, quit (keyboard e i) = false) ->
  snd (run n e) = Running.
Proof.
  intros Hcam Hfeed Hkeys.
  assert (Hloop : forall m w, is_open (cap w) = true -> surroundings w = e ->
                          snd (run_for handle m from_loop w) = Running).
  { induction m as [m IH] using lt_wf_ind. intros w Hopen He.
    rewrite (run_from_loop m w Hopen), He. cbv zeta.
    destruct m as [|[|[|[|m]]]]; try reflexivity;
      destruct (feed e (grabs w)) as [f|] eqn:Hf;
      try (now contradiction (Hfeed (grabs w)));
      rewrite ?Hkeys; try reflexivity.
    apply IH; [lia|exact Hopen|exact He]. }
  rewrite run_probe. destruct n as [|[|n]]; try reflexivity.
  cbv zeta. rewrite Hcam. now apply Hloop.
Qed.

(** *** More on the probe *)

(** X1: however a run of the probe ends, be it that the camera did not
    open, that a read failed or that the quit key was pressed, its exit
    status is 0. *)
Theorem probe_exit_status_is_zero (e : env) (n : nat) (status : Z) :
  exit_status (snd (run n e)) = Some status -> status = 0.
Proof.
  destruct (camera e 0) eqn:Hcam.
  - destruct (probe_log_begins_session e n Hcam) as (Hraised & _).
    destruct (snd (run n e)) as [[]|x|]; cbn.
    + congruence.
    + now contradiction (Hraised x).
    + discriminate.
  - destruct (probe_unopened_log e n Hcam) as [_ ->].
    destruct (4 <=? n)%nat; cbn; congruence.
Qed.

Lemma probe_exit_status_is_zero_witness :
  exit_status (snd (run 8 (webcam [[1]; [2]] [ord "q"]))) = Some 0
  /\ 0 = 0.
Proof.
  split; [reflexivity|].
  apply (probe_exit_status_is_zero (webcam [[1]; [2]] [ord "q"]) 8 0).
  reflexivity.
Defined.

(** X5: the quit test depends on the low byte of the polled value only:
    it holds exactly when the value is 113, the code of [q], modulo 256,
    so that adding any multiple of 256 to the value does not change it. *)
Theorem quit_low_byte (key : Z) :
  quit key = (key mod 256 =? 113)
  /\ forall m, quit (key + 256 * m) = quit key.
Proof.
  assert (H : forall k, quit k = (k mod 256 =? 113)).
  { intros k. unfold quit. change 0xFF with (Z.ones 8).
    now rewrite Z.land_ones by lia. }
  split; [apply H|]. intros m. rewrite !H.
  now rewrite Z.mul_comm, Z_mod_plus_full.
Qed.

(** In a session the failure message, the release and the closing of the
    windows are all that comes after a read that failed. *)
Lemma session_after_read_failure (s : list call) :
  session s ->
  forall l1 l2,
    l1 ++ c_read None :: l2 = s ->
    l2 = c_print grab_failure_message :: closing.
Proof.
  induction 1 as [|f key Hq|f key s Hq Hs IH]; intros l1 l2 H.
  - walk l1 H; [now injection H as ->|].
    do 3 (walk l1 H; [discriminate H|]). now destruct l1.
  - do 5 (walk l1 H; [discriminate H|]). now destruct l1.
  - do 3 (walk l1 H; [discriminate H|]). now apply (IH l1).
Qed.

(** X2: a read that failed is never tried again: at every step of every
    run, what the log holds after a failed read is the beginning of the
    failure message, the release and the closing of the windows, and so
    holds no read, no [imshow] and no poll. *)
Theorem no_retry_after_read_failure (e : env) (n : nat) (l1 l2 : list call) :
  log (fst (run n e)) = l1 ++ c_read None :: l2 ->
  (exists more,
      l2 ++ more
      = [c_print grab_failure_message; c_release; c_destroyAllWindows])
  /\ times is_read l2 = 0%nat
  /\ times is_imshow l2 = 0%nat
  /\ times is_waitKey l2 = 0%nat.
Proof.
  intros HL.
  destruct (probe_log_begins_full e n) as (full & more & Hfull & H).
  rewrite HL, <- app_assoc in H. cbn [app] in H.
  assert (Hl2 : l2 ++ more = c_print grab_failure_message :: closing).
  { destruct Hfull as [-> | (s & Hs & ->)].
    - do 4 (walk l1 H; [discriminate H|]). now destruct l1.
    - do 2 (walk l1 H; [discriminate H|]).
      now apply (session_after_read_failure s Hs l1). }
  split; [now exists more|].
  assert (Hz : forall p, times p (c_print grab_failure_message :: closing) = 0%nat ->
                         times p l2 = 0%nat).
  { intros p Hp. rewrite <- Hl2, times_app in Hp. lia. }
  repeat split; now apply Hz.
Qed.

Lemma no_retry_after_read_failure_witness :
  times is_read [c_print grab_failure_message] = 0%nat.
Proof.
  apply (no_retry_after_read_failure (webcam [[1]] []) 8
           [c_VideoCapture 0; c_isOpened true; c_read (Some [1]);
            c_imshow "Webcam" [1]; c_waitKey 1 (-1)]
           [c_print grab_failure_message] eq_refl).
Defined.

(** A session begins with a read. *)
Lemma session_begins_with_read (s : list call) :
  session s -> exists r l, s = c_read r :: l.
Proof. destruct 1; cbn; eauto. Qed.

(** In a session a poll with a delay of 1 comes right after every
    [imshow], which is on the window [Webcam]. *)
Lemma session_after_show (s : list call) :
  session s ->
  forall l1 winname f l2,
    l1 ++ c_imshow winname f :: l2 = s ->
    winname = "Webcam" /\ exists key l3, l2 = c_waitKey 1 key :: l3.
Proof.
  induction 1 as [|f' key Hq|f' key s Hq Hs IH]; intros l1 winname f l2 H.
  - do 4 (walk l1 H; [discriminate H|]). now destruct l1.
  - walk l1 H; [discriminate H|].
    walk l1 H; [injection H as -> _ ->; eauto|].
    do 3 (walk l1 H; [discriminate H|]). now destruct l1.
  - walk l1 H; [discriminate H|].
    walk l1 H; [injection H as -> _ ->; eauto|].
    walk l1 H; [discriminate H|]. now apply (IH l1 winname f).
Qed.

(** In a session every poll has a delay of 1, and a read comes right
    after a poll that did not see the quit key. *)
Lemma session_after_poll (s : list call) :
  session s ->
  forall l1 d key l2,
    l1 ++ c_waitKey d key :: l2 = s ->
    d = 1 /\ (quit key = false -> exists r l3, l2 = c_read r :: l3).
Proof.
  induction 1 as [|f' key' Hq|f' key' s Hq Hs IH]; intros l1 d key l2 H.
  - do 4 (walk l1 H; [discriminate H|]). now destruct l1.
  - do 2 (walk l1 H; [discriminate H|]).
    walk l1 H; [injection H as -> -> ->; split; [reflexivity|congruence]|].
    do 2 (walk l1 H; [discriminate H|]). now destruct l1.
  - do 2 (walk l1 H; [discriminate H|]).
    walk l1 H; [injection H as -> -> ->|now apply (IH l1)].
    split; [reflexivity|]. intros _. now apply session_begins_with_read.
Qed.

(** X6: the keyboard is polled after every frame: at every step of every
    run, an [imshow] is on the window [Webcam] and the call after it, if
    the run has made one, is a poll; a poll has a delay of 1, and the call
    after a poll that did not see the quit key, if the run has made one,
    is a read of the camera. *)
Theorem poll_after_every_frame (e : env) (n : nat) :
  (forall l1 winname f l2,
      log (fst (run n e)) = l1 ++ c_imshow winname f :: l2 ->
      winname = "Webcam"
      /\ (l2 = [] \/ exists key l3, l2 = c_waitKey 1 key :: l3))
  /\ (forall l1 d key l2,
         log (fst (run n e)) = l1 ++ c_waitKey d key :: l2 ->
         d = 1
         /\ (quit key = false -> l2 = [] \/ exists r l3, l2 = c_read r :: l3)).
Proof.
  destruct (probe_log_begins_full e n) as (full & more & Hfull & H).
  split.
  - intros l1 winname f l2 HL. rewrite HL, <- app_assoc in H. cbn [app] in H.
    assert (Hs : winname = "Webcam"
                 /\ exists key l3, l2 ++ more = c_waitKey 1 key :: l3).
    { destruct Hfull as [-> | (s & Hs & ->)].
      - do 4 (walk l1 H; [discriminate H|]). now destruct l1.
      - do 2 (walk l1 H; [discriminate H|]).
        now apply (session_after_show s Hs l1 winname f). }
    destruct Hs as (-> & key & l3 & Hl). split; [reflexivity|].
    destruct l2 as [|c l2]; [now left|right].
    injection Hl as -> _. eauto.
  - intros l1 d key l2 HL. rewrite HL, <- app_assoc in H. cbn [app] in H.
    assert (Hs : d = 1
                 /\ (quit key = false -> exists r l3, l2 ++ more = c_read r :: l3)).
    { destruct Hfull as [-> | (s & Hs & ->)].
      - do 4 (walk l1 H; [discriminate H|]). now destruct l1.
      - do 2 (walk l1 H; [discriminate H|]).
        now apply (session_after_poll s Hs l1 d key). }
    destruct Hs as (-> & Hnext). split; [reflexivity|]. intros Hq.
    destruct (Hnext Hq) as (r & l3 & Hl).
    destruct l2 as [|c l2]; [now left|right].
    injection Hl as -> _. eauto.
Qed.

Lemma poll_after_every_frame_witness :
  "Webcam" = "Webcam"
  /\ 1 = 1
  /\ ([c_read (Some [2])] = []
      \/ exists r l3, [c_read (Some [2])] = c_read r :: l3).
Proof.
  pose proof (poll_after_every_frame (webcam [[1]; [2]] []) 7) as [Hshow Hpoll].
  split; [|split].
  - apply (proj1 (Hshow [c_VideoCapture 0; c_isOpened true; c_read (Some [1])]
                    "Webcam" [1] [c_waitKey 1 (-1); c_read (Some [2])] eq_refl)).
  - apply (proj1 (Hpoll [c_VideoCapture 0; c_isOpened true; c_read (Some [1]);
                         c_imshow "Webcam" [1]]
                    1 (-1) [c_read (Some [2])] eq_refl)).
  - apply (proj2 (Hpoll [c_VideoCapture 0; c_isOpened true; c_read (Some [1]);
                         c_imshow "Webcam" [1]]
                    1 (-1) [c_read (Some [2])] eq_refl)).
    reflexivity.
Defined.

(** Counting the messages of a log that is written out. *)
Ltac count_prints :=
  unfold times; cbn;
  repeat match goal with Hq : quit _ = _ |- _ => rewrite Hq; clear Hq end; cbn;
  split; [lia|split];
  [ let msg := fresh "msg" in
    let Hin := fresh "Hin" in
    intros msg Hin; cbn in Hin; intuition congruence
  | let Hc := fresh "Hc" in intros Hc; lia ].

(** At any point of a session at most one message has been printed, the
    frame-failure message after a read that failed, and none once a poll
    has seen the quit key. *)
Lemma session_begin_printed (s : list call) :
  session s ->
  forall l more,
    l ++ more = s ->
    (times is_printing l <= 1)%nat
    /\ (forall msg, In (c_print msg) l ->
                    msg = grab_failure_message /\ In (c_read None) l)
    /\ (times is_quit_poll l <> 0%nat -> times is_printing l = 0%nat).
Proof.
  induction 1 as [|f key Hq|f key s Hq Hs IH]; intros l more H.
  - do 4 (walk l H; [count_prints|]).
    apply app_eq_nil in H as [-> _]. count_prints.
  - do 5 (walk l H; [count_prints|]).
    apply app_eq_nil in H as [-> _]. count_prints.
  - do 3 (walk l H; [count_prints|]).
    destruct (IH l more H) as (Hone & Hmsg & Hquit).
    rewrite !times_cons. cbn [is_printing is_quit_poll]. rewrite Hq.
    split; [exact Hone|]. split; [|exact Hquit].
    intros msg Hin. cbn in Hin.
    destruct Hin as [Hin|[Hin|[Hin|Hin]]]; try discriminate Hin.
    destruct (Hmsg msg Hin) as [-> Hr]. split; [reflexivity|].
    now do 3 right.
Qed.

(** X7: the messages tell what happened: at every step of every run at
    most one message has been printed; it is the open-failure message
    only when the camera did not open, and the frame-failure message only
    when the camera opened and a read of it has failed; and a run in
    which a poll has seen the quit key has printed nothing. *)
Theorem messages_tell_what_happened (e : env) (n : nat) :
  (times is_printing (log (fst (run n e))) <= 1)%nat
  /\ (forall msg,
         In (c_print msg) (log (fst (run n e))) ->
         msg = open_failure_message /\ camera e 0 = false
         \/ msg = grab_failure_message /\ camera e 0 = true
            /\ In (c_read None) (log (fst (run n e))))
  /\ (times is_quit_poll (log (fst (run n e))) <> 0%nat ->
      times is_printing (log (fst (run n e))) = 0%nat).
Proof.
  destruct (camera e 0) eqn:Hcam.
  - destruct (probe_log_begins_session e n Hcam) as (_ & s & more & Hs & HL & _).
    remember (log (fst (run n e))) as l eqn:El. clear El.
    do 2 (walk l HL; [count_prints|]).
    destruct (session_begin_printed s Hs l more HL) as (Hone & Hmsg & Hquit).
    rewrite !times_cons. cbn [is_printing is_quit_poll Nat.add].
    split; [exact Hone|]. split; [|exact Hquit].
    intros msg Hin. right. cbn in Hin.
    destruct Hin as [Hin|[Hin|Hin]]; try discriminate Hin.
    destruct (Hmsg msg Hin) as [-> Hr]. repeat split. now do 2 right.
  - destruct (probe_unopened_log e n Hcam) as [-> _].
    destruct n as [|[|[|[|n]]]]; cbn [firstn open_failure_log];
      rewrite ?firstn_nil; count_prints.
Qed.

Lemma messages_tell_what_happened_witness :
  (grab_failure_message = open_failure_message
   /\ camera (webcam [[1]] []) 0 = false
   \/ grab_failure_message = grab_failure_message
      /\ camera (webcam [[1]] []) 0 = true
      /\ In (c_read None) (log (fst (run 8 (webcam [[1]] [])))))
  /\ times is_printing (log (fst (run 8 (webcam [[1]; [2]] [ord "q"])))) = 0%nat.
Proof.
  split.
  - apply (proj1 (proj2 (messages_tell_what_happened (webcam [[1]] []) 8))).
    vm_compute. tauto.
  - apply (proj2 (proj2 (messages_tell_what_happened
                           (webcam [[1]; [2]] [ord "q"]) 8))).
    vm_compute. discriminate.
Defined.

(** *** When the probe ends *)

(** From the head of the loop: as long as the reads give frames and the
    polls do not see the quit key, the run goes on. *)
Lemma from_loop_goes_on (m : nat) :
  forall w : world,
    is_open (cap w) = true ->
    (forall i, (i < m)%nat ->
               feed (surroundings w) (grabs w + i) <> None
               /\ quit (keyboard (surroundings w) (polls w + i)) = false) ->
    snd (run_for handle m from_loop w) = Running.
Proof.
  induction m as [m IH] using lt_wf_ind. intros w Hopen Hgo.
  rewrite (run_from_loop m w Hopen). cbv zeta.
  destruct m as [|m1]; [reflexivity|].
  destruct (Hgo 0%nat ltac:(lia)) as [Hf Hq]. rewrite !Nat.add_0_r in Hf, Hq.
  destruct (feed (surroundings w) (grabs w)) as [f|]; [|now contradiction Hf].
  destruct m1 as [|[|[|m4]]]; rewrite ?Hq; try reflexivity.
  apply IH; [lia|exact Hopen|]. intros i Hi. cbn.
  rewrite <- !Nat.add_succ_r. apply Hgo. lia.
Qed.

(** From the head of the loop: a read that fails or a poll that sees the
    quit key, [i] turns ahead or sooner, brings the script to its end
    within [4 i + 5] steps. *)
Lemma from_loop_comes_to_end (i : nat) :
  forall (w : world) (k : nat),
    is_open (cap w) = true ->
    feed (surroundings w) (grabs w + i) = None
    \/ quit (keyboard (surroundings w) (polls w + i)) = true ->
    snd (run_for handle (4 * i + 5 + k) from_loop w) = Returned tt.
Proof.
  induction i as [|i IH]; intros w k Hopen Hexit;
    rewrite (run_from_loop _ w Hopen).
  - cbn [Nat.mul Nat.add]. cbv zeta. rewrite !Nat.add_0_r in Hexit.
    destruct (feed (surroundings w) (grabs w)) as [f|].
    + destruct Hexit as [Hf|Hq]; [discriminate Hf|].
      now rewrite Hq, run_cleanup.
    + now rewrite run_cleanup.
  - replace (4 * S i + 5 + k)%nat
      with (S (S (S (S (4 * i + 5 + k)))))%nat by lia.
    cbv zeta.
    destruct (feed (surroundings w) (grabs w)) as [f|].
    + destruct (quit (keyboard (surroundings w) (polls w))).
      * rewrite run_cleanup.
        now replace (4 * i + 5 + k)%nat with (S (4 * i + 4 + k)) by lia.
      * apply IH; [exact Hopen|]. cbn. now rewrite <- !Nat.add_succ_r.
    + now rewrite run_cleanup.
Qed.

(** Among the first [n] turns there is one whose read fails or whose poll
    sees the quit key, or there is none. *)
Lemma exit_within_dec (e : env) (n : nat) :
  (exists i, (i < n)%nat /\ (feed e i = None \/ quit (keyboard e i) = true))
  \/ (forall i, (i < n)%nat -> feed e i <> None /\ quit (keyboard e i) = false).
Proof.
  induction n as [|n [(i & Hi & Hexit)|Hnone]].
  - right. intros i Hi. lia.
  - left. exists i. split; [lia|exact Hexit].
  - destruct (feed e n) as [f|] eqn:Hf.
    + destruct (quit (keyboard e n)) eqn:Hq.
      * left. exists n. split; [lia|now right].
      * right. intros i Hi. destruct (Nat.eq_dec i n) as [->|Hne].
        -- rewrite Hf, Hq. split; [discriminate|reflexivity].
        -- apply Hnone. lia.
    + left. exists n. split; [lia|now left].
Qed.

(** X3: on a camera that opens, the probe comes to an end exactly when
    some read fails or some poll sees the quit key: if the [i]-th read
    fails or the [i]-th poll sees the quit key (counting from 0), the
    script has reached its end by step [4 i + 7]; if a run is over at step
    [n], a read has failed or a poll has seen the quit key among the first
    [n]; and if no read ever fails and no poll ever sees the quit key, the
    probe runs for ever. *)
Theorem probe_ends_iff_read_fails_or_quit (e : env) :
  camera e 0 = true ->
  (forall i k,
      feed e i = None \/ quit (keyboard e i) = true ->
      snd (run (4 * i + 7 + k) e) = Returned tt)
  /\ (forall n,
         snd (run n e) <> Running ->
         exists i, (i < n)%nat
                   /\ (feed e i = None \/ quit (keyboard e i) = true))
  /\ ((forall i, feed e i <> None /\ quit (keyboard e i) = false) ->
      forall n, snd (run n e) = Running).
Proof.
  intros Hcam.
  assert (Hgo : forall n,
             (forall i, (i < n)%nat ->
                        feed e i <> None /\ quit (keyboard e i) = false) ->
             snd (run n e) = Running).
  { intros n Hnone. rewrite run_probe.
    destruct n as [|[|n2]]; try reflexivity.
    cbv zeta. rewrite Hcam.
    apply from_loop_goes_on; [reflexivity|].
    intros i Hi. apply (Hnone i). lia. }
  split; [|split].
  - intros i k Hexit. rewrite run_probe.
    replace (4 * i + 7 + k)%nat with (S (S (4 * i + 5 + k)))%nat by lia.
    cbv zeta. rewrite Hcam.
    now apply from_loop_comes_to_end.
  - intros n Hover.
    destruct (exit_within_dec e n) as [Hexit|Hnone]; [exact Hexit|].
    now contradiction Hover; apply Hgo.
  - intros Hnone n. apply Hgo. intros i _. apply Hnone.
Qed.

Lemma probe_ends_iff_read_fails_or_quit_witness :
  snd (run 11 (webcam [[1]; [2]; [3]] [-1; ord "q"])) = Returned tt
  /\ (exists i, (i < 14)%nat
                /\ (feed (webcam [[1]; [2]] []) i = None
                    \/ quit (keyboard (webcam [[1]; [2]] []) i) = true)).
Proof.
  split.
  - apply (proj1 (probe_ends_iff_read_fails_or_quit
                    (webcam [[1]; [2]; [3]] [-1; ord "q"]) eq_refl)
             1%nat 0%nat).
    right. reflexivity.
  - apply (proj1 (proj2 (probe_ends_iff_read_fails_or_quit
                           (webcam [[1]; [2]] []) eq_refl)) 14%nat).
    vm_compute. discriminate.
Defined.

(** From the head of the loop: turns that show the frames [fs] without
    seeing the quit key, then a turn that shows [f] and sees it. *)
Lemma from_loop_quit_at (fs : list frame) :
  forall (w : world) (f : frame) (k : nat),
    is_open (cap w) = true ->
    (forall i, (i < List.length fs)%nat ->
               feed (surroundings w) (grabs w + i) = Some (nth i fs [])
               /\ quit (keyboard (surroundings w) (polls w + i)) = false) ->
    feed (surroundings w) (grabs w + List.length fs) = Some f ->
    quit (keyboard (surroundings w) (polls w + List.length fs)) = true ->
    exists l,
      log (fst (run_for handle (4 * List.length fs + 5 + k) from_loop w))
      = log w ++ l
      /\ snd (run_for handle (4 * List.length fs + 5 + k) from_loop w)
         = Returned tt
      /\ yielded l = List.map Some (fs ++ [f])
      /\ shown l = fs ++ [f]
      /\ times is_waitKey l = S (List.length fs)
      /\ times is_printing l = 0%nat.
Proof.
  induction fs as [|f0 fs IH]; intros w f k Hopen Hfeed Hf Hq;
    rewrite (run_from_loop _ w Hopen).
  - cbn [List.length Nat.mul Nat.add]. cbv zeta.
    cbn [List.length] in Hf, Hq. rewrite !Nat.add_0_r in Hf, Hq.
    rewrite Hf, Hq, run_cleanup.
    exists (round f (keyboard (surroundings w) (polls w)) ++ closing).
    split; [cbn; now rewrite <- !app_assoc|]. now repeat split.
  - replace (4 * List.length (f0 :: fs) + 5 + k)%nat
      with (S (S (S (S (4 * List.length fs + 5 + k)))))%nat by (cbn; lia).
    cbv zeta.
    destruct (Hfeed 0%nat ltac:(cbn; lia)) as [Hf0 Hq0].
    rewrite !Nat.add_0_r in Hf0, Hq0. cbn [nth] in Hf0. rewrite Hf0, Hq0.
    set (key0 := keyboard (surroundings w) (polls w)).
    set (w3 := logged (c_waitKey 1 key0) _).
    cbn [List.length] in Hf, Hq. rewrite Nat.add_succ_r in Hf, Hq.
    destruct (IH w3 f k Hopen) as (l & Hlog & Hret & Hy & Hs & Hp & Hm);
      [|exact Hf|exact Hq|].
    { intros i Hi. destruct (Hfeed (S i) ltac:(cbn; lia)) as [Hf' Hq'].
      rewrite Nat.add_succ_r in Hf', Hq'. cbn [nth] in Hf'. now split. }
    exists (round f0 key0 ++ l). split; [|split; [exact Hret|]].
    + rewrite Hlog. subst w3. cbn. now rewrite <- !app_assoc.
    + rewrite yielded_app, shown_app, !times_app, Hy, Hs, Hp, Hm.
      now repeat split.
Qed.

(** X8: when the camera opens, the first [N] frames [fs] are shown
    without the quit key being seen, and the poll after the next frame [f]
    sees it, the script has reached its end by step [4 N + 7]: it has read
    and shown [fs] and then [f] and nothing more of the camera, it has
    polled the keyboard [N + 1] times, it has printed nothing, and it has
    released the device and closed the windows once. *)
Theorem quit_key_at_frame (e : env) (fs : list frame) (f : frame) (k : nat) :
  camera e 0 = true ->
  (forall i, (i < List.length fs)%nat ->
             feed e i = Some (nth i fs []) /\ quit (keyboard e i) = false) ->
  feed e (List.length fs) = Some f ->
  quit (keyboard e (List.length fs)) = true ->
  snd (run (4 * List.length fs + 7 + k) e) = Returned tt
  /\ yielded (log (fst (run (4 * List.length fs + 7 + k) e)))
     = List.map Some (fs ++ [f])
  /\ shown (log (fst (run (4 * List.length fs + 7 + k) e))) = fs ++ [f]
  /\ times is_waitKey (log (fst (run (4 * List.length fs + 7 + k) e)))
     = S (List.length fs)
  /\ times is_printing (log (fst (run (4 * List.length fs + 7 + k) e)))
     = 0%nat.
Proof.
  intros Hcam Hfeed Hf Hq. rewrite run_probe.
  replace (4 * List.length fs + 7 + k)%nat
    with (S (S (4 * List.length fs + 5 + k)))%nat by lia.
  cbv zeta. rewrite Hcam.
  set (w2 := logged (c_isOpened true) _).
  destruct (from_loop_quit_at fs w2 f k eq_refl Hfeed Hf Hq)
    as (l & Hlog & Hret & Hy & Hs & Hp & Hm).
  rewrite Hlog, Hret. change (log w2) with opening.
  rewrite yielded_app, shown_app, !times_app, Hy, Hs, Hp, Hm.
  now repeat split.
Qed.

Lemma quit_key_at_frame_witness :
  snd (run 11 (webcam [[1]; [2]; [3]] [-1; ord "q"])) = Returned tt
  /\ shown (log (fst (run 11 (webcam [[1]; [2]; [3]] [-1; ord "q"]))))
     = [[1]; [2]].
Proof.
  assert (H : forall i, (i < 1)%nat ->
                feed (webcam [[1]; [2]; [3]] [-1; ord "q"]) i
                = Some (nth i [[1]] [])
                /\ quit (keyboard (webcam [[1]; [2]; [3]] [-1; ord "q"]) i)
                   = false).
  { intros [|i] Hi; [now split|lia]. }
  pose proof (quit_key_at_frame (webcam [[1]; [2]; [3]] [-1; ord "q"])
                [[1]] [2] 0 eq_refl H eq_refl eq_refl) as Hw.
  split; [exact (proj1 Hw)|exact (proj1 (proj2 (proj2 Hw)))].
Defined.

(** From the head of the loop: turns that show the frames [fs] without
    seeing the quit key, then a read that fails. *)
Lemma from_loop_fail_at (fs : list frame) :
  forall (w : world) (k : nat),
    is_open (cap w) = true ->
    (forall i, (i < List.length fs)%nat ->
               feed (surroundings w) (grabs w + i) = Some (nth i fs [])
               /\ quit (keyboard (surroundings w) (polls w + i)) = false) ->
    feed (surroundings w) (grabs w + List.length fs) = None ->
    exists l,
      log (fst (run_for handle (4 * List.length fs + 4 + k) from_loop w))
      = log w ++ l
      /\ snd (run_for handle (4 * List.length fs + 4 + k) from_loop w)
         = Returned tt
      /\ yielded l = List.map Some fs ++ [None]
      /\ shown l = fs
      /\ times is_waitKey l = List.length fs
      /\ times is_printing l = 1%nat
      /\ times (is_print grab_failure_message) l = 1%nat.
Proof.
  induction fs as [|f0 fs IH]; intros w k Hopen Hfeed Hf;
    rewrite (run_from_loop _ w Hopen).
  - cbn [List.length Nat.mul Nat.add]. cbv zeta.
    cbn [List.length] in Hf. rewrite !Nat.add_0_r in Hf.
    rewrite Hf, run_cleanup.
    exists (c_read None :: c_print grab_failure_message :: closing).
    split; [cbn; now rewrite <- !app_assoc|]. now repeat split.
  - replace (4 * List.length (f0 :: fs) + 4 + k)%nat
      with (S (S (S (S (4 * List.length fs + 4 + k)))))%nat by (cbn; lia).
    cbv zeta.
    destruct (Hfeed 0%nat ltac:(cbn; lia)) as [Hf0 Hq0].
    rewrite !Nat.add_0_r in Hf0, Hq0. cbn [nth] in Hf0. rewrite Hf0, Hq0.
    set (key0 := keyboard (surroundings w) (polls w)).
    set (w3 := logged (c_waitKey 1 key0) _).
    cbn [List.length] in Hf. rewrite Nat.add_succ_r in Hf.
    destruct (IH w3 k Hopen) as (l & Hlog & Hret & Hy & Hs & Hp & Hm & Hg);
      [|exact Hf|].
    { intros i Hi. destruct (Hfeed (S i) ltac:(cbn; lia)) as [Hf' Hq'].
      rewrite Nat.add_succ_r in Hf', Hq'. cbn [nth] in Hf'. now split. }
    exists (round f0 key0 ++ l). split; [|split; [exact Hret|]].
    + rewrite Hlog. subst w3. cbn. now rewrite <- !app_assoc.
    + rewrite yielded_app, shown_app, !times_app, Hy, Hs, Hp, Hm, Hg.
      now repeat split.
Qed.

(** X9: when the camera opens and gives the [N] frames [fs] and then
    fails, and none of the [N] polls sees the quit key, the script has
    reached its end by step [4 N + 6]: it has read and shown exactly
    [fs], the read after them has failed, it has polled the keyboard [N]
    times, and the frame-failure message is the one message printed. *)
Theorem read_failure_at_frame (e : env) (fs : list frame) (k : nat) :
  camera e 0 = true ->
  (forall i, (i < List.length fs)%nat ->
             feed e i = Some (nth i fs []) /\ quit (keyboard e i) = false) ->
  feed e (List.length fs) = None ->
  snd (run (4 * List.length fs + 6 + k) e) = Returned tt
  /\ yielded (log (fst (run (4 * List.length fs + 6 + k) e)))
     = List.map Some fs ++ [None]
  /\ shown (log (fst (run (4 * List.length fs + 6 + k) e))) = fs
  /\ times is_waitKey (log (fst (run (4 * List.length fs + 6 + k) e)))
     = List.length fs
  /\ times is_printing (log (fst (run (4 * List.length fs + 6 + k) e)))
     = 1%nat
  /\ times (is_print grab_failure_message)
       (log (fst (run (4 * List.length fs + 6 + k) e))) = 1%nat.
Proof.
  intros Hcam Hfeed Hf. rewrite run_probe.
  replace (4 * List.length fs + 6 + k)%nat
    with (S (S (4 * List.length fs + 4 + k)))%nat by lia.
  cbv zeta. rewrite Hcam.
  set (w2 := logged (c_isOpened true) _).
  destruct (from_loop_fail_at fs w2 k eq_refl Hfeed Hf)
    as (l & Hlog & Hret & Hy & Hs & Hp & Hm & Hg).
  rewrite Hlog, Hret. change (log w2) with opening.
  rewrite yielded_app, shown_app, !times_app, Hy, Hs, Hp, Hm, Hg.
  now repeat split.
Qed.

Lemma read_failure_at_frame_witness :
  snd (run 14 (webcam [[1]; [2]] [])) = Returned tt
  /\ shown (log (fst (run 14 (webcam [[1]; [2]] [])))) = [[1]; [2]].
Proof.
  assert (H : forall i, (i < 2)%nat ->
                feed (webcam [[1]; [2]] []) i = Some (nth i [[1]; [2]] [])
                /\ quit (keyboard (webcam [[1]; [2]] []) i) = false).
  { intros [|[|i]] Hi; [now split|now split|lia]. }
  pose proof (read_failure_at_frame (webcam [[1]; [2]] []) [[1]; [2]] 0
                eq_refl H eq_refl) as Hw.
  split; [exact (proj1 Hw)|exact (proj1 (proj2 (proj2 Hw)))].
Defined.

End ProbeFacts.
